(** * AutoFLAP: automaton model, spreadsheet import and JFLAP export

    A shallow embedding of [autoflap/automaton/state.py],
    [autoflap/automaton/transition.py], [autoflap/automaton/automaton.py]
    and [autoflap/constants.py].

    Python objects are mutable and compared by identity ([State] and
    [Transition] define no [__eq__]).  A [State] object is therefore
    represented by its identity [oid] together with its immutable name;
    its mutable [is_final] flag lives in a store indexed by [oid].  The
    methods of [Automaton] are computations in a state-and-exception monad
    over that store, the automaton object [self] and the file system: an
    exception keeps every mutation made before it was raised, as in Python. *)

From Stdlib Require Import ZArith String List Bool Lia Reals Lra.
From stdpp Require Import base list strings.

Local Open Scope string_scope.
Local Open Scope list_scope.

(** ** Exceptions ([autoflap/automaton/error.py], the built-in ones and
    [csv.Error]) *)

Inductive Error : Type :=
| IndexError (msg : string)
| StopIteration
| ValueError
| HeadersNotFoundError
| InitialStateAlreadyDefinedError (initial_state_name : string)
| InvalidStateNameError
| NoFinalStateError
| NoInitialStateError
| StateExistsError (state_name : string)
| StateNotFoundError (state_name : string)
| TransitionExistsError (origin_name : string) (condition : option string)
| NotADirectoryError (dirname : string)
| FileExistsError (filename : string)
| IsADirectoryError (filename : string)
| CsvError.

Inductive Result (A : Type) : Type :=
| Return (a : A)
| Raise (e : Error).

Arguments Return {A} a.
Arguments Raise {A} e.

(** ** Constants ([autoflap/constants.py]) *)

Module constants.

Definition DEFAULT_EMPTY_STRING_SYMBOL : string := "-".
Definition DEFAULT_FINAL_STATE_SYMBOL : string := "*".
Definition DEFAULT_INITIAL_STATE_SYMBOL : string := ">".
Definition DEFAULT_NO_TRANSITION_SYMBOL : string := "-".

Definition DEFAULT_STATE_SYMBOLS_COL : Z := 0.
Definition DEFAULT_STATES_COL : Z := 1.

Definition DEFAULT_DRAWING_MARGIN : R := 100.
Definition DEFAULT_DRAWING_RADIUS_FACTOR : R := 25.

Definition JFLAP_FILE_EXTENSION : string := ".jff".

End constants.

(** ** Data model *)

(** [state.py]: a State object.  [oid] is the identity of the object, [name]
    its private, never reassigned [__name]. *)
Record State : Type := mkState { oid : nat; name : string }.

(** [==] between two State objects is object identity. *)
Definition State_eqb (a b : State) : bool := Nat.eqb (oid a) (oid b).

(** [transition.py]: [when] is [None] for the empty condition.  The code
    never compares two Transition objects, only their origin and condition,
    so a transition is kept as the value of its three fields. *)
Record Transition : Type :=
  mkTransition { origin : State; target : State; when : option string }.

(** [automaton.py]: the three private fields of an Automaton. *)
Record Automaton : Type :=
  mkAutomaton {
    initial_state : option State;
    states : list State;
    transitions : list Transition }.

(** The JFLAP document written by [build_jff]: one [<state>] element per
    state and one [<transition>] element per transition.  The text of [<x>]
    and [<y>] has one decimal digit; it is kept as a number of tenths. *)
Record JffState : Type :=
  mkJffState {
    jff_id : nat;
    jff_name : string;
    jff_x : Z;
    jff_y : Z;
    jff_initial : bool;
    jff_final : bool }.

Record JffTransition : Type :=
  mkJffTransition { jff_from : nat; jff_to : nat; jff_read : option string }.

Record Jff : Type :=
  mkJff {
    jff_comment : string;
    jff_states : list JffState;
    jff_transitions : list JffTransition }.

(** What [build_jff] sees of the file system: the existing directories and
    the existing regular files with their contents. *)
Record FileSystem : Type :=
  mkFileSystem { directories : list string; files : list (string * Jff) }.

(** The mutable world: [finals !! oid s] is the [is_final] flag of the State
    object [s]; [self] is the automaton the methods are called on. *)
Record World : Type :=
  mkWorld { finals : list bool; self : Automaton; disk : FileSystem }.

Definition with_finals (f : list bool) (w : World) : World :=
  mkWorld f (self w) (disk w).

Definition with_self (a : Automaton) (w : World) : World :=
  mkWorld (finals w) a (disk w).

Definition with_disk (d : FileSystem) (w : World) : World :=
  mkWorld (finals w) (self w) d.

(** ** The monad of methods *)

Definition M (A : Type) : Type := World -> Result A * World.

#[global] Instance M_ret : MRet M := fun A (a : A) w => (Return a, w).

#[global] Instance M_bind : MBind M := fun A B (k : A -> M B) (m : M A) w =>
  match m w with
  | (Return a, w') => k a w'
  | (Raise e, w') => (Raise e, w')
  end.

Definition raise {A : Type} (e : Error) : M A := fun w => (Raise e, w).

(** [try: body except Exception as e: handler e] *)
Definition try_except {A : Type} (body : M A) (handler : Error -> M A) : M A :=
  fun w =>
    match body w with
    | (Return a, w') => (Return a, w')
    | (Raise e, w') => handler e w'
    end.

Definition gets {A : Type} (f : World -> A) : M A := fun w => (Return (f w), w).

Definition modify (f : World -> World) : M unit := fun w => (Return tt, f w).

(** [for x in l: body x] *)
Fixpoint for_each {A : Type} (l : list A) (body : A -> M unit) : M unit :=
  match l with
  | [] => mret tt
  | x :: l' => body x ;; for_each l' body
  end.

(** ** Python built-ins used by the code *)

(** [list.pop(index)]: a negative index counts from the end; the removed
    element and the shortened list are returned, [None] stands for
    IndexError. *)
Definition pop {A : Type} (l : list A) (index : Z) : option (A * list A) :=
  let n := Z.of_nat (length l) in
  let i := if (index <? 0)%Z then (index + n)%Z else index in
  if ((i <? 0) || (n <=? i))%Z then None
  else match l !! Z.to_nat i with
       | Some x => Some (x, delete (Z.to_nat i) l)
       | None => None
       end.

Definition pop_or_raise {A : Type} (l : list A) (index : Z) : M (A * list A) :=
  match pop l index with
  | Some r => mret r
  | None =>
      raise (IndexError (match l with
                         | [] => "pop from empty list"
                         | _ => "pop index out of range"
                         end))
  end.

(** [sub in s] on strings. *)
Fixpoint contains (sub s : string) : bool :=
  if String.prefix sub s then true
  else match s with
       | EmptyString => false
       | String _ s' => contains sub s'
       end.

(** [s.endswith(suffix)] *)
Definition endswith (s suffix : string) : bool :=
  (String.length suffix <=? String.length s)%nat
  && String.eqb
       (String.substring (String.length s - String.length suffix)
          (String.length suffix) s)
       suffix.

(** [sorted] on a list of integers. *)
Fixpoint insert_sorted (x : Z) (l : list Z) : list Z :=
  match l with
  | [] => [x]
  | y :: l' => if (x <=? y)%Z then x :: l else y :: insert_sorted x l'
  end.

Definition sorted (l : list Z) : list Z := foldr insert_sorted [] l.

(** [l.index(x)] on a list of State objects, [None] for ValueError. *)
Fixpoint index_of (x : State) (l : list State) : option nat :=
  match l with
  | [] => None
  | y :: l' => if State_eqb y x then Some 0%nat else S <$> index_of x l'
  end.

(** ** [state.py] *)

(** The identity given to the next State object. *)
Definition fresh_oid (store : list bool) : nat := length store.

(** [State(name)]: the name must not be empty; the flag starts [False].  The
    new object gets the next free identity. *)
Definition State_init (name : string) : M State :=
  fun w =>
    if String.eqb name "" then (Raise InvalidStateNameError, w)
    else (Return (mkState (fresh_oid (finals w)) name),
          with_finals (finals w ++ [false]) w).

Definition is_final (w : World) (state : State) : bool :=
  default false (finals w !! oid state).

Definition set_is_final (state : State) (b : bool) : M unit :=
  modify (fun w => with_finals (<[oid state := b]> (finals w)) w).

(** ** [transition.py] *)

(** [Transition(origin, target, when)]: a missing target is the origin, a
    falsy condition is stored as [None].  The TypeError of the [isinstance]
    tests cannot arise: [origin] and [target] are State objects by type. *)
Definition Transition_init (origin : State) (target : option State)
    (when : option string) : Transition :=
  mkTransition origin
    (match target with None => origin | Some t => t end)
    (match when with
     | None => None
     | Some s => if String.eqb s "" then None else Some s
     end).

(** [a == b] on two optional strings. *)
Definition when_eqb (a b : option string) : bool :=
  match a, b with
  | None, None => true
  | Some x, Some y => String.eqb x y
  | _, _ => false
  end.

(** ** [automaton.py]: look-ups *)

Definition get_state (a : Automaton) (name' : string) : option State :=
  List.find (fun state => String.eqb (name state) name') (states a).

Definition has_state (a : Automaton) (name' : string) : bool :=
  match get_state a name' with Some _ => true | None => false end.

Definition get_transition (a : Automaton) (origin' : State)
    (when' : option string) : option Transition :=
  List.find
    (fun transition =>
       State_eqb (origin transition) origin' && when_eqb (when transition) when')
    (transitions a).

Definition has_transition (a : Automaton) (origin' : State)
    (when' : option string) : bool :=
  match get_transition a origin' when' with Some _ => true | None => false end.

Definition has_initial_state (a : Automaton) : bool :=
  match initial_state a with Some _ => true | None => false end.

Definition final_states (w : World) : list State :=
  List.filter (is_final w) (states (self w)).

Definition has_final_state (w : World) : bool :=
  (0 <? length (final_states w))%nat.

(** ** [automaton.py]: mutators *)

Definition empty_automaton : Automaton := mkAutomaton None [] [].

Definition reset : M unit := modify (with_self empty_automaton).

Definition add_state (name' : string) : M State :=
  exists_ ← gets (fun w => has_state (self w) name');
  if exists_ : bool then raise (StateExistsError name')
  else
    state ← State_init name';
    modify (fun w =>
      with_self (mkAutomaton (initial_state (self w))
                   (states (self w) ++ [state])
                   (transitions (self w))) w) ;;
    mret state.

Definition add_transition (origin' : State) (target' : option State)
    (when' : option string) : M Transition :=
  exists_ ← gets (fun w => has_transition (self w) origin' when');
  if exists_ : bool then raise (TransitionExistsError (name origin') when')
  else
    let transition := Transition_init origin' target' when' in
    try_except
      (known ← gets (fun w => has_state (self w) (name origin'));
       (if known : bool then mret tt
        else raise (StateNotFoundError (name origin'))) ;;
       match target' with
       | None => mret tt
       | Some t =>
           known' ← gets (fun w => has_state (self w) (name t));
           if known' : bool then mret tt
           else raise (StateNotFoundError (name t))
       end)
      (fun e => raise e) ;;
    modify (fun w =>
      with_self (mkAutomaton (initial_state (self w))
                   (states (self w))
                   (transitions (self w) ++ [transition])) w) ;;
    mret transition.

(** The [initial_state] setter (its TypeError cannot arise either). *)
Definition set_initial_state (state : State) : M unit :=
  known ← gets (fun w => has_state (self w) (name state));
  if known : bool then
    modify (fun w =>
      with_self (mkAutomaton (Some state) (states (self w))
                   (transitions (self w))) w)
  else raise (StateNotFoundError (name state)).

(** ** [automaton.py]: [parse_csv]

    The method from the first [next(csv_file)] on: the input is the
    sequence of rows that [csv.reader] yields for the file.  After
    [file.seek(0)] the reader yields the same rows again.  What the method
    does before, the test of the two indices (repeated here) and the
    sniffing of the dialect, is in [parse_csv_file] below. *)

(** A row of the spreadsheet as [csv.reader] yields it. *)
Abbreviation Row := (list string).

Section ParseCsv.

Variables (initial_state_symbol final_state_symbol : string).
Variables (no_transition_symbol empty_string_symbol : string).
Variables (states_col_index state_symbols_col_index : Z).

(** The two tests on the state symbols cell of a row. *)
Definition mark_state (state : State) (state_type : string) : M unit :=
  (if contains initial_state_symbol state_type then
     current ← gets (fun w => initial_state (self w));
     match current with
     | Some i => raise (InitialStateAlreadyDefinedError (name i))
     | None => set_initial_state state
     end
   else mret tt) ;;
  if contains final_state_symbol state_type then set_is_final state true
  else mret tt.

(** Body of the first loop: one data row creates one state. *)
Definition parse_state_row (row : Row) : M unit :=
  '(cell, row) ← pop_or_raise row states_col_index;
  state ← add_state cell;
  '(state_type, row) ←
    pop_or_raise row
      (state_symbols_col_index
       - Z.b2z (states_col_index <? state_symbols_col_index)%Z)%Z;
  mark_state state state_type.

(** [for i in indices: row.pop(i)] *)
Fixpoint pop_each (row : Row) (indices : list Z) : M Row :=
  match indices with
  | [] => mret row
  | i :: indices' =>
      '(_, row') ← pop_or_raise row i;
      pop_each row' indices'
  end.

(** Body of the innermost loop: one cell of a data row. *)
Definition parse_cell (state : State) (cell : string * string) : M unit :=
  let '(when', name') := cell in
  if String.eqb name' no_transition_symbol then mret tt
  else
    target' ← gets (fun w => get_state (self w) name');
    match target' with
    | None => raise (StateNotFoundError name')
    | Some t =>
        add_transition state (Some t)
          (if negb (String.eqb when' empty_string_symbol) then Some when'
           else None) ;;
        mret tt
    end.

(** [for state in self.__states: row = next(csv_file); ...] *)
Fixpoint parse_transition_rows (columns : Row) (indices : list Z)
    (states' : list State) (csv_file : list Row) : M unit :=
  match states' with
  | [] => mret tt
  | state :: states'' =>
      match csv_file with
      | [] => raise StopIteration
      | row :: csv_file' =>
          row' ← pop_each row indices;
          for_each (zip columns row') (parse_cell state) ;;
          parse_transition_rows columns indices states'' csv_file'
      end
  end.

(** The body of the [try] block; [input_file] is read a second time from
    its first row. *)
Definition populate (input_file : list Row) : M unit :=
  for_each (tail input_file) parse_state_row ;;
  match input_file with
  | [] => raise StopIteration
  | columns :: csv_file =>
      let indices := rev (sorted [states_col_index; state_symbols_col_index]) in
      columns' ← pop_each columns indices;
      states' ← gets (fun w => states (self w));
      parse_transition_rows columns' indices states' csv_file
  end.

Definition parse_csv (input_file : list Row) : M unit :=
  if (states_col_index =? state_symbols_col_index)%Z then
    raise (IndexError
             "the state column index cannot be the same as the state symbol column")
  else
    match input_file with
    | [] => raise HeadersNotFoundError
    | _ :: _ =>
        reset ;;
        try_except (populate input_file) (fun e => reset ;; raise e)
    end.

End ParseCsv.

(** [parse_csv] called with the default symbols and column indices. *)
Definition parse_csv_default : list Row -> M unit :=
  parse_csv constants.DEFAULT_INITIAL_STATE_SYMBOL
    constants.DEFAULT_FINAL_STATE_SYMBOL
    constants.DEFAULT_NO_TRANSITION_SYMBOL
    constants.DEFAULT_EMPTY_STRING_SYMBOL
    constants.DEFAULT_STATES_COL
    constants.DEFAULT_STATE_SYMBOLS_COL.

(** The example spreadsheet of the documentation. *)
Definition example_table : list Row :=
  [ [""; ""; "a"; "b"; "c"; "-"];
    [">"; "q1"; "q2"; "-"; "q1"; "q3"];
    [""; "q2"; "q2"; "q1"; "q3"; "-"];
    ["*"; "q3"; "-"; "q1"; "q3"; "q2"] ].

Definition empty_world : World :=
  mkWorld [] empty_automaton (mkFileSystem [] []).

(** ** [automaton.py]: [parse_csv], from the opened file

    [csv.Sniffer().sniff(file.read(1024))] and [csv.reader(file, dialect)]
    belong to the csv module and are parameters of the model: for the text
    of the file the sniffer answers a dialect or fails with [csv.Error]
    ([None]), and for a dialect the reader yields the rows of the text.
    The file is taken as opened. *)

Section ParseCsvFile.

Variable Dialect : Type.
Variable sniff : string -> option Dialect.
Variable reader : Dialect -> string -> list Row.

Variables (initial_state_symbol final_state_symbol : string).
Variables (no_transition_symbol empty_string_symbol : string).
Variables (states_col_index state_symbols_col_index : Z).


End ParseCsvFile.


(** ** [automaton.py]: [build_jff]

    [math.pi], [math.cos], [math.sin] and the float arithmetic of the layout
    are idealised over the real numbers: the two coordinates of a state
    element stand for what the program computes in binary64 arithmetic, and
    no statement below depends on their digits.  [os.path.abspath],
    [os.path.join] and [os.path.split] are parameters of the model. *)

(** [autoflap/__init__.py] *)
Definition __version__ : string := "1.0.0".

(** [f'{x:.1f}']: the nearest number with one decimal digit, a tie going to
    the even last digit; the result is the number of tenths. *)
Definition format_1f (x : R) : Z :=
  let t := (10 * x)%R in
  let lo := (up t - 1)%Z in
  if Rlt_dec (t - IZR lo) (/ 2) then lo
  else if Rlt_dec (/ 2) (t - IZR lo) then (lo + 1)%Z
  else if Z.even lo then lo else (lo + 1)%Z.

(** [a = 2 * math.pi * idx / n + math.pi] *)
Definition angle (idx n : nat) : R := (2 * PI * INR idx / INR n + PI)%R.

(** [r = n * drawing_radius_factor] *)
Definition radius (n : nat) (drawing_radius_factor : R) : R :=
  (INR n * drawing_radius_factor)%R.

(** The value formatted by [position]: [r * f(a) + r + drawing_margin] *)
Definition coordinate (r a drawing_margin : R) (f : R -> R) : R :=
  (r * f a + r + drawing_margin)%R.

Definition position (r a drawing_margin : R) (f : R -> R) : Z :=
  format_1f (coordinate r a drawing_margin f).

Section BuildJff.

Variable abspath : string -> string.
Variable join : string -> string -> string.
Variable split : string -> string * string.

(** Body of the loop over [enumerate(self.__states)]. *)
Definition jff_state (w : World) (drawing_radius_factor drawing_margin : R)
    (idx : nat) (state : State) : JffState :=
  let n := length (states (self w)) in
  let a := angle idx n in
  let r := radius n drawing_radius_factor in
  mkJffState idx (name state)
    (position r a drawing_margin cos)
    (position r a drawing_margin sin)
    (match initial_state (self w) with
     | Some i => State_eqb i state
     | None => false
     end)
    (is_final w state).

(** Body of the loop over [self.__transitions]; [list.index] raises
    ValueError for a state that is not in the list. *)
Definition jff_transition (transition : Transition) : M JffTransition :=
  states' ← gets (fun w => states (self w));
  match index_of (origin transition) states' with
  | None => raise ValueError
  | Some from =>
      match index_of (target transition) states' with
      | None => raise ValueError
      | Some to => mret (mkJffTransition from to (when transition))
      end
  end.

Fixpoint jff_transition_list (l : list Transition) : M (list JffTransition) :=
  match l with
  | [] => mret []
  | transition :: l' =>
      e ← jff_transition transition;
      es ← jff_transition_list l';
      mret (e :: es)
  end.

Definition isdir (w : World) (path : string) : bool :=
  existsb (String.eqb path) (directories (disk w)).

Definition isfile (w : World) (path : string) : bool :=
  existsb (fun f => String.eqb path (fst f)) (files (disk w)).

(** [open(output_file, 'w')] followed by [file.write]. *)
Definition write_file (output_file : string) (jff : Jff) : M unit :=
  is_dir ← gets (fun w => isdir w output_file);
  if is_dir : bool then raise (IsADirectoryError output_file)
  else
    modify (fun w =>
      with_disk
        (mkFileSystem (directories (disk w))
           ((output_file, jff)
              :: List.filter (fun f => negb (String.eqb output_file (fst f)))
                   (files (disk w))))
        w).

Definition build_jff (filename : string) (dirname : option string)
    (drawing_radius_factor drawing_margin : R) : M string :=
  has_initial ← gets (fun w => has_initial_state (self w));
  if negb has_initial then raise NoInitialStateError
  else
    has_final ← gets has_final_state;
    if negb has_final then raise NoFinalStateError
    else
      let filename := abspath filename in
      let output_file :=
        match dirname with
        | None => filename
        | Some d => abspath (join d (snd (split filename)))
        end in
      let '(dirname, filename) := split output_file in
      is_dir ← gets (fun w => isdir w dirname);
      if negb is_dir then raise (NotADirectoryError dirname)
      else
        let output_file :=
          if negb (endswith filename constants.JFLAP_FILE_EXTENSION)
          then output_file +:+ constants.JFLAP_FILE_EXTENSION
          else output_file in
        is_file ← gets (fun w => isfile w output_file);
        if is_file : bool then raise (FileExistsError output_file)
        else
          jff_states' ← gets (fun w =>
            imap (jff_state w drawing_radius_factor drawing_margin)
              (states (self w)));
          transitions' ← gets (fun w => transitions (self w));
          jff_transitions' ← jff_transition_list transitions';
          write_file output_file
            (mkJff ("Created with AutoFLAP " +:+ __version__)
               jff_states' jff_transitions') ;;
          mret output_file.

End BuildJff.

(** * Vocabulary of the statements *)

(** The automaton has a state bearing the name of [state]: the membership
    test of [add_transition] and of the [initial_state] setter. *)
Definition state_known (a : Automaton) (state : State) : Prop :=
  exists s, s ∈ states a /\ name s = name state.

Definition append_transition (t : Transition) (w : World) : World :=
  with_self (mkAutomaton (initial_state (self w)) (states (self w))
               (transitions (self w) ++ [t])) w.

(** A world whose automaton has the single state [q], object 0. *)
Definition q_state : State := mkState 0 "q".

Definition one_state_world : World :=
  mkWorld [false] (mkAutomaton None [q_state] []) (mkFileSystem [] []).

(** A transition read by the names of its two states. *)
Definition transition_names (t : Transition) : string * option string * string :=
  (name (origin t), when t, name (target t)).

(** The State object [state] is an element of the state collection. *)
Definition is_element (state : State) (a : Automaton) : Prop :=
  exists s, s ∈ states a /\ oid s = oid state.

(** The structural invariant: the origin and the target of every transition,
    and the initial state when set, are elements of the state collection. *)
Definition structural_invariant (a : Automaton) : Prop :=
  (forall t, t ∈ transitions a ->
     is_element (origin t) a /\ is_element (target t) a)
  /\ (forall i, initial_state a = Some i -> is_element i a).

(** A second State object named [q], created by the caller with [State("q")]
    and never added to the automaton. *)
Definition foreign_q : State := mkState 1 "q".

Definition two_objects_world : World :=
  mkWorld [false; false] (mkAutomaton None [q_state] []) (mkFileSystem [] []).

(** Stand-ins for [os.path] on plain file names, for concrete runs. *)
Definition plain_abspath (p : string) : string := p.
Definition plain_join (d p : string) : string := p.
Definition plain_split (p : string) : string * string := ("", p).

(** The cells of [row] whose position, counted from [k], is not listed in
    [columns], in their order. *)
Fixpoint without_columns_from (k : nat) (columns : list nat) (row : Row) : Row :=
  match row with
  | [] => []
  | cell :: row' =>
      if bool_decide (k ∈ columns) then without_columns_from (S k) columns row'
      else cell :: without_columns_from (S k) columns row'
  end.

(** The row minus the columns listed in [columns]. *)
Definition without_columns (columns : list nat) (row : Row) : Row :=
  without_columns_from 0 columns row.

(** An automaton of four states, q0 initial and final, in a file system
    whose only directory is the one [plain_split] answers. *)
Definition four_states_world : World :=
  mkWorld [true; false; false; false]
    (mkAutomaton (Some (mkState 0 "q0"))
       [mkState 0 "q0"; mkState 1 "q1"; mkState 2 "q2"; mkState 3 "q3"] [])
    (mkFileSystem [""] []).

(** The condition that [parse_csv] passes to [add_transition] for a header
    label. *)
Definition when_of_label (empty_string_symbol label : string) : option string :=
  if negb (String.eqb label empty_string_symbol) then Some label else None.

(** From [w] to [w'] the states are the same and transitions were only
    appended. *)
Definition grows (w w' : World) : Prop :=
  states (self w') = states (self w)
  /\ exists ts, transitions (self w') = transitions (self w) ++ ts.


(** The same header over a row whose two cells name no state. *)
Definition unknown_target_table : list Row :=
  [ [""; ""; "a"; "a"]; [">"; "q1"; "zz"; "zz"] ].


(** The key by which [add_transition] tells transitions apart. *)
Definition transition_key (t : Transition) : nat * option string :=
  (oid (origin t), when t).

(** Every stored condition is as [Transition.__init__] leaves it: never the
    empty text. *)
Definition conditions_normalized (a : Automaton) : Prop :=
  forall t, t ∈ transitions a -> when t <> Some "".

(** The errors [build_jff] raises by itself. *)
Definition export_error (e : Error) : Prop :=
  e = NoInitialStateError \/ e = NoFinalStateError
  \/ (exists d, e = NotADirectoryError d)
  \/ (exists f, e = FileExistsError f)
  \/ (exists f, e = IsADirectoryError f).

(** The name cell and the state symbols cell of a data row. *)
Definition name_cell (states_col_index : Z) (row : Row) : string :=
  default "" (row !! Z.to_nat states_col_index).

Definition marker_cell (state_symbols_col_index : Z) (row : Row) : string :=
  default "" (row !! Z.to_nat state_symbols_col_index).

(** The State objects an import creates for the data rows when [base]
    objects exist already: one per row, in order, named by the name cell. *)
Definition row_states (base : nat) (states_col_index : Z) (rows : list Row)
    : list State :=
  imap (fun k row => mkState (base + k) (name_cell states_col_index row)) rows.

(** The condition stored for a header label. *)
Definition stored_condition (empty_string_symbol label : string)
    : option string :=
  if String.eqb label empty_string_symbol then None
  else if String.eqb label "" then None else Some label.

(** The transition one cell asks for, by names: none for the no-transition
    symbol. *)
Definition cell_transition (no_transition_symbol empty_string_symbol : string)
    (origin_name : string) (cell : string * string)
    : list (string * option string * string) :=
  if String.eqb (snd cell) no_transition_symbol then []
  else [(origin_name, stored_condition empty_string_symbol (fst cell),
         snd cell)].

(** The retained header and row cells, paired. *)
Definition row_cells (states_col_index state_symbols_col_index : Z)
    (header row : Row) : list (string * string) :=
  zip (without_columns
         [Z.to_nat states_col_index; Z.to_nat state_symbols_col_index] header)
      (without_columns
         [Z.to_nat states_col_index; Z.to_nat state_symbols_col_index] row).

(** The transitions a table asks for, by names, row after row. *)
Definition table_transitions (no_transition_symbol empty_string_symbol : string)
    (states_col_index state_symbols_col_index : Z)
    (header : Row) (rows : list Row)
    : list (string * option string * string) :=
  flat_map
    (fun row =>
       flat_map
         (cell_transition no_transition_symbol empty_string_symbol
            (name_cell states_col_index row))
         (row_cells states_col_index state_symbols_col_index header row))
    rows.


(** A world with no State object and an empty automaton, whose only
    directory is the one [plain_split] answers. *)
Definition export_ready_world : World :=
  mkWorld [] empty_automaton (mkFileSystem [""] []).

(** A table whose only data row has the final-state symbol and no
    initial-state symbol. *)
Definition no_initial_table : list Row :=
  [ [""; ""; "a"]; ["*"; "q1"; "q1"] ].

(** The header labels of the cells that ask for a transition, in column
    order. *)
Definition asking_labels (no_transition_symbol : string)
    (cells : list (string * string)) : list string :=
  fst <$> List.filter
            (fun cell => negb (String.eqb (snd cell) no_transition_symbol))
            cells.

(** No label of the list is refused by the duplicate test of
    [add_transition]: the condition passed for it is not the condition
    stored for an earlier label. *)
Fixpoint labels_fresh (empty_string_symbol : string) (labels : list string)
    : Prop :=
  match labels with
  | [] => True
  | a :: rest =>
      Forall (fun b => stored_condition empty_string_symbol a
                       <> when_of_label empty_string_symbol b) rest
      /\ labels_fresh empty_string_symbol rest
  end.

(** The tables [parse_csv] imports. *)
Definition well_formed_table (initial_state_symbol : string)
    (no_transition_symbol empty_string_symbol : string)
    (states_col_index state_symbols_col_index : Z)
    (header : Row) (rows : list Row) : Prop :=
  states_col_index <> state_symbols_col_index
  /\ (states_col_index < Z.of_nat (length header))%Z
  /\ (state_symbols_col_index < Z.of_nat (length header))%Z
  /\ Forall (fun row =>
               (states_col_index < Z.of_nat (length row))%Z
               /\ (state_symbols_col_index < Z.of_nat (length row))%Z
               /\ name_cell states_col_index row <> "") rows
  /\ NoDup (name_cell states_col_index <$> rows)
  /\ (forall k k' row row',
        rows !! k = Some row -> rows !! k' = Some row' ->
        contains initial_state_symbol
          (marker_cell state_symbols_col_index row) = true ->
        contains initial_state_symbol
          (marker_cell state_symbols_col_index row') = true ->
        k = k')
  /\ (forall row cell,
        row ∈ rows ->
        cell ∈ row_cells states_col_index state_symbols_col_index header row ->
        snd cell <> no_transition_symbol ->
        exists row',
          row' ∈ rows /\ name_cell states_col_index row' = snd cell)
  /\ (forall row,
        row ∈ rows ->
        labels_fresh empty_string_symbol
          (asking_labels no_transition_symbol
             (row_cells states_col_index state_symbols_col_index header row))).

(** The errors that the two passes of [parse_csv] raise by themselves. *)
Definition import_error (e : Error) : Prop :=
  (exists msg, e = IndexError msg)
  \/ e = HeadersNotFoundError
  \/ e = InvalidStateNameError
  \/ (exists n, e = StateExistsError n)
  \/ (exists n, e = InitialStateAlreadyDefinedError n)
  \/ (exists n, e = StateNotFoundError n)
  \/ (exists n c, e = TransitionExistsError n c).

(** The second pass in the words of the specification: for each state, in
    the order of creation, the next data row is read; its retained cells
    are the original row minus the name column and the marker column, in
    order, and they are paired with the condition labels. *)
Fixpoint spec_second_pass (no_transition_symbol empty_string_symbol : string)
    (states_col_index state_symbols_col_index : Z) (columns : Row)
    (states' : list State) (csv_file : list Row) : M unit :=
  match states' with
  | [] => mret tt
  | state :: states'' =>
      match csv_file with
      | [] => raise StopIteration
      | row :: csv_file' =>
          for_each
            (zip columns
               (without_columns
                  [Z.to_nat states_col_index; Z.to_nat state_symbols_col_index]
                  row))
            (parse_cell no_transition_symbol empty_string_symbol state) ;;
          spec_second_pass no_transition_symbol empty_string_symbol
            states_col_index state_symbols_col_index columns states''
            csv_file'
      end
  end.

(** * Properties *)

(** ** The monad *)

Lemma bind_Return {A B : Type} (m : M A) (k : A -> M B) (w w' : World) (a : A) :
  m w = (Return a, w') -> (m ≫= k) w = k a w'.
Proof. intros H. unfold mbind, M_bind. now rewrite H. Qed.

Lemma bind_Raise {A B : Type} (m : M A) (k : A -> M B) (w w' : World) (e : Error) :
  m w = (Raise e, w') -> (m ≫= k) w = (Raise e, w').
Proof. intros H. unfold mbind, M_bind. now rewrite H. Qed.

(** A successful bind splits into its two successful halves. *)
Lemma bind_Return_inv {A B : Type} (m : M A) (k : A -> M B) (w w' : World) (b : B) :
  (m ≫= k) w = (Return b, w') ->
  exists a w1, m w = (Return a, w1) /\ k a w1 = (Return b, w').
Proof.
  unfold mbind, M_bind. destruct (m w) as [[a | e] w1]; intros H.
  - now exists a, w1.
  - discriminate.
Qed.

Ltac step :=
  unfold mbind, M_bind, mret, M_ret, gets, modify, raise, try_except; cbn.

(** ** Look-ups *)

Lemma has_state_true (a : Automaton) (n : string) :
  has_state a n = true <-> exists s, s ∈ states a /\ name s = n.
Proof.
  unfold has_state, get_state. split.
  - destruct (List.find _ _) as [s |] eqn:F; [| discriminate]. intros _.
    apply find_some in F as [Hin Heq]. exists s. split.
    + now apply list_elem_of_In.
    + now apply String.eqb_eq.
  - intros (s & Hin & Heq).
    destruct (List.find _ _) as [s' |] eqn:F; [reflexivity |].
    apply list_elem_of_In in Hin.
    apply (find_none _ _ F) in Hin. cbn in Hin.
    apply String.eqb_neq in Hin. contradiction.
Qed.

Lemma has_state_false (a : Automaton) (n : string) :
  has_state a n = false <-> forall s, s ∈ states a -> name s <> n.
Proof.
  rewrite <- not_true_iff_false, has_state_true. split.
  - intros H s Hin Heq. apply H. now exists s.
  - intros H (s & Hin & Heq). now apply (H s).
Qed.

Lemma when_eqb_eq (a b : option string) : when_eqb a b = true <-> a = b.
Proof.
  destruct a as [x |], b as [y |]; cbn; try (split; congruence).
  rewrite String.eqb_eq. split; congruence.
Qed.

Lemma has_transition_true (a : Automaton) (o : State) (c : option string) :
  has_transition a o c = true <->
  exists t, t ∈ transitions a /\ oid (origin t) = oid o /\ when t = c.
Proof.
  unfold has_transition, get_transition. split.
  - destruct (List.find _ _) as [t |] eqn:F; [| discriminate]. intros _.
    apply find_some in F as [Hin Heq]. apply andb_true_iff in Heq as [Ho Hc].
    exists t. split; [now apply list_elem_of_In |]. split.
    + now apply Nat.eqb_eq.
    + now apply when_eqb_eq.
  - intros (t & Hin & Ho & Hc).
    destruct (List.find _ _) as [t' |] eqn:F; [reflexivity |].
    apply list_elem_of_In in Hin.
    apply (find_none _ _ F) in Hin. cbn in Hin.
    apply andb_false_iff in Hin as [Hin | Hin].
    + apply Nat.eqb_neq in Hin. contradiction.
    + apply not_true_iff_false in Hin. rewrite when_eqb_eq in Hin. contradiction.
Qed.

Lemma has_transition_false (a : Automaton) (o : State) (c : option string) :
  has_transition a o c = false <->
  forall t, t ∈ transitions a -> oid (origin t) = oid o -> when t <> c.
Proof.
  rewrite <- not_true_iff_false, has_transition_true. split.
  - intros H t Hin Ho Hc. apply H. now exists t.
  - intros H (t & Hin & Ho & Hc). now apply (H t).
Qed.

(** ** [add_state] *)

Lemma add_state_exists (s : string) (w : World) :
  has_state (self w) s = true ->
  add_state s w = (Raise (StateExistsError s), w).
Proof. intros H. unfold add_state. step. now rewrite H. Qed.

Lemma add_state_new (s : string) (w : World) :
  s <> "" -> has_state (self w) s = false ->
  add_state s w =
    (Return (mkState (fresh_oid (finals w)) s),
     mkWorld (finals w ++ [false])
       (mkAutomaton (initial_state (self w))
          (states (self w) ++ [mkState (fresh_oid (finals w)) s])
          (transitions (self w)))
       (disk w)).
Proof.
  intros Hs H. unfold add_state, State_init. step. rewrite H.
  apply String.eqb_neq in Hs. now rewrite Hs.
Qed.

(** Whatever [add_state] answers, an error leaves the world as it was and a
    success appends exactly one state. *)
Lemma add_state_inv (s : string) (w w' : World) (r : Result State) :
  add_state s w = (r, w') ->
  match r with
  | Return state =>
      name state = s /\ oid state = fresh_oid (finals w)
      /\ has_state (self w) s = false
      /\ finals w' = finals w ++ [false]
      /\ self w' = mkAutomaton (initial_state (self w))
                     (states (self w) ++ [state]) (transitions (self w))
      /\ disk w' = disk w
  | Raise _ => w' = w
  end.
Proof.
  unfold add_state, State_init. step.
  destruct (has_state (self w) s) eqn:H.
  - intros [= <- <-]. reflexivity.
  - destruct (String.eqb s "") eqn:Hs; intros [= <- <-]; cbn; auto 10.
Qed.

(** C8: for a non-empty name [s] that no state of the automaton bears,
    [add_state s] appends and returns a State named [s]; afterwards
    [has_state s] is true and a second [add_state s] fails with
    StateExistsError, leaving the automaton (the whole world) unchanged. *)
Theorem add_state_then_has_state (s : string) (w : World) :
  s <> "" ->
  (forall state, state ∈ states (self w) -> name state <> s) ->
  exists state w1,
    add_state s w = (Return state, w1)
    /\ name state = s
    /\ states (self w1) = states (self w) ++ [state]
    /\ has_state (self w1) s = true
    /\ add_state s w1 = (Raise (StateExistsError s), w1).
Proof.
  intros Hs Hnew. apply has_state_false in Hnew.
  eexists _, _. split; [apply (add_state_new s w Hs Hnew) |]. cbn.
  assert (Hhas : has_state
                   (mkAutomaton (initial_state (self w))
                      (states (self w) ++ [mkState (fresh_oid (finals w)) s])
                      (transitions (self w))) s = true).
  { apply has_state_true. exists (mkState (fresh_oid (finals w)) s).
    split; [| reflexivity].
    cbn. apply elem_of_app. right. apply list_elem_of_singleton. reflexivity. }
  repeat split; [exact Hhas |]. now apply add_state_exists.
Qed.

Lemma add_state_then_has_state_witness :
  exists state w1,
    add_state "q1" empty_world = (Return state, w1)
    /\ name state = "q1"
    /\ states (self w1) = states (self empty_world) ++ [state]
    /\ has_state (self w1) "q1" = true
    /\ add_state "q1" w1 = (Raise (StateExistsError "q1"), w1).
Proof.
  apply (add_state_then_has_state "q1" empty_world).
  - discriminate.
  - intros state H. cbn in H. inversion H.
Defined.

(** ** [add_transition] *)


Lemma add_transition_unknown_origin origin' target' when' (w : World) :
  has_transition (self w) origin' when' = false ->
  has_state (self w) (name origin') = false ->
  add_transition origin' target' when' w =
    (Raise (StateNotFoundError (name origin')), w).
Proof. intros H1 H2. unfold add_transition. step. now rewrite H1, H2. Qed.

Lemma add_transition_unknown_target origin' t when' (w : World) :
  has_transition (self w) origin' when' = false ->
  has_state (self w) (name origin') = true ->
  has_state (self w) (name t) = false ->
  add_transition origin' (Some t) when' w =
    (Raise (StateNotFoundError (name t)), w).
Proof. intros H1 H2 H3. unfold add_transition. step. now rewrite H1, H2, H3. Qed.

Lemma add_transition_new origin' target' when' (w : World) :
  has_transition (self w) origin' when' = false ->
  has_state (self w) (name origin') = true ->
  (forall t, target' = Some t -> has_state (self w) (name t) = true) ->
  add_transition origin' target' when' w =
    (Return (Transition_init origin' target' when'),
     append_transition (Transition_init origin' target' when') w).
Proof.
  intros H1 H2 H3. unfold add_transition. step. rewrite H1, H2.
  destruct target' as [t |]; [| reflexivity].
  now rewrite (H3 t eq_refl).
Qed.

(** C5 at the failing input: the automaton holds the State object 0 named
    [q]; the second State object named [q] that the caller has created
    (object 1) is not an element of the state collection, yet
    [add_transition] accepts it as origin and target and appends the
    transition, where StateNotFoundError is due.  And with the transition
    [(q, None)] present, [add_transition q None ""] succeeds as well: the
    duplicate test compares the text as passed with the stored [None], and a
    second transition of the same origin and condition is appended. *)
Theorem add_transition_accepts_foreign_state :
  ~ is_element foreign_q (self two_objects_world)
  /\ add_transition foreign_q None None two_objects_world
     = (Return (mkTransition foreign_q foreign_q None),
        append_transition (mkTransition foreign_q foreign_q None)
          two_objects_world)
  /\ add_transition q_state None (Some "")
       (append_transition (mkTransition q_state q_state None) one_state_world)
     = (Return (mkTransition q_state q_state None),
        append_transition (mkTransition q_state q_state None)
          (append_transition (mkTransition q_state q_state None)
             one_state_world)).
Proof.
  split; [| split].
  - intros (s & Hin & Ho). cbn in Hin.
    apply list_elem_of_singleton in Hin. subst s. discriminate.
  - lazy. reflexivity.
  - lazy. reflexivity.
Qed.

(** ** [parse_csv]: failures *)



(** C1: once the indices are distinct and the header row has been consumed,
    a failing [parse_csv] leaves the automaton empty, whatever it held
    before: no states, no transitions, no initial state. *)
Theorem parse_csv_failure_resets
    (initial_state_symbol final_state_symbol : string)
    (no_transition_symbol empty_string_symbol : string)
    (states_col_index state_symbols_col_index : Z)
    (input_file : list Row) (w w' : World) (e : Error) :
  states_col_index <> state_symbols_col_index ->
  input_file <> [] ->
  parse_csv initial_state_symbol final_state_symbol no_transition_symbol
    empty_string_symbol states_col_index state_symbols_col_index input_file w
  = (Raise e, w') ->
  self w' = empty_automaton
  /\ states (self w') = [] /\ transitions (self w') = []
  /\ initial_state (self w') = None.
Proof.
  intros Hne Hrows. unfold parse_csv.
  apply Z.eqb_neq in Hne. rewrite Hne.
  destruct input_file as [| columns csv_file]; [contradiction |].
  unfold mbind, M_bind, try_except, reset, modify, raise.
  match goal with
  | |- context [populate ?a ?b ?c ?d ?s ?m ?f ?v] =>
      destruct (populate a b c d s m f v) as [[[] | e'] w1]
  end; [discriminate |].
  intros [= <- <-]. cbn. auto.
Qed.

Lemma parse_csv_failure_resets_witness :
  exists w',
    parse_csv ">" "*" "-" "-" 1 0
      [[""; ""; "a"]; [">"; "q1"; "q2"]] one_state_world
    = (Raise (StateNotFoundError "q2"), w')
    /\ self w' = empty_automaton
    /\ states (self w') = [] /\ transitions (self w') = []
    /\ initial_state (self w') = None.
Proof.
  eexists. split; [reflexivity |].
  eapply (parse_csv_failure_resets ">" "*" "-" "-" 1 0
            [[""; ""; "a"]; [">"; "q1"; "q2"]] one_state_world).
  - lia.
  - discriminate.
  - reflexivity.
Defined.

(** ** [parse_csv]: the example spreadsheet *)

(** Identities handed out by consecutive [State(...)] calls are distinct. *)
Lemma fresh_oid_eqb_next (f : list bool) (x : bool) :
  Nat.eqb (fresh_oid f) (fresh_oid (f ++ [x])) = false.
Proof. unfold fresh_oid. rewrite length_app. apply Nat.eqb_neq. cbn. lia. Qed.

Lemma fresh_oid_eqb_next2 (f : list bool) (x y : bool) :
  Nat.eqb (fresh_oid f) (fresh_oid ((f ++ [x]) ++ [y])) = false.
Proof. unfold fresh_oid. rewrite !length_app. apply Nat.eqb_neq. cbn. lia. Qed.

Lemma fresh_oid_eqb_prev (f : list bool) (x : bool) :
  Nat.eqb (fresh_oid (f ++ [x])) (fresh_oid f) = false.
Proof. unfold fresh_oid. rewrite length_app. apply Nat.eqb_neq. cbn. lia. Qed.

Lemma fresh_oid_eqb_prev2 (f : list bool) (x y : bool) :
  Nat.eqb (fresh_oid ((f ++ [x]) ++ [y])) (fresh_oid f) = false.
Proof. unfold fresh_oid. rewrite !length_app. apply Nat.eqb_neq. cbn. lia. Qed.

(** Symbolic run of a method on a world whose store is not known. *)
Ltac run_symbolic :=
  repeat (progress (cbv -[Nat.eqb fresh_oid app insert list_insert]; cbn [app];
                    rewrite ?Nat.eqb_refl, ?fresh_oid_eqb_next,
                      ?fresh_oid_eqb_next2, ?fresh_oid_eqb_prev,
                      ?fresh_oid_eqb_prev2)).

(** The flags of three objects allocated in a row, the third one set. *)
Lemma finals_three (f : list bool) :
  let h := <[fresh_oid ((f ++ [false]) ++ [false]) := true]>
             (((f ++ [false]) ++ [false]) ++ [false]) in
  h !! fresh_oid f = Some false
  /\ h !! fresh_oid (f ++ [false]) = Some false
  /\ h !! fresh_oid ((f ++ [false]) ++ [false]) = Some true.
Proof.
  unfold fresh_oid. rewrite !length_app. cbn [length].
  rewrite <- !app_assoc. cbn [app]. repeat split.
  - rewrite list_lookup_insert_ne by lia.
    rewrite lookup_app_r by lia.
    now replace (length f - length f) with 0 by lia.
  - rewrite list_lookup_insert_ne by lia.
    rewrite lookup_app_r by lia.
    now replace (length f + 1 - length f) with 1 by lia.
  - apply list_lookup_insert_eq. rewrite length_app. cbn. lia.
Qed.

(** C2, as the code behaves: importing the example table with the default
    symbols and column indices, into an automaton with any prior contents,
    yields exactly the three states q1, q2, q3, with q1 initial and q3 the
    only final state, and exactly 9 transitions, one per data cell other
    than the no-transition symbol. *)
Theorem parse_example_table (w : World) :
  exists w',
    parse_csv_default example_table w = (Return tt, w')
    /\ map name (states (self w')) = ["q1"; "q2"; "q3"]
    /\ name <$> initial_state (self w') = Some "q1"
    /\ map name (final_states w') = ["q3"]
    /\ length (transitions (self w')) = 9
    /\ map transition_names (transitions (self w'))
       = [ ("q1", Some "a", "q2"); ("q1", Some "c", "q1"); ("q1", None, "q3");
           ("q2", Some "a", "q2"); ("q2", Some "b", "q1"); ("q2", Some "c", "q3");
           ("q3", Some "b", "q1"); ("q3", Some "c", "q3"); ("q3", None, "q2") ].
Proof.
  destruct w as [f a d].
  eexists. split.
  { run_symbolic. reflexivity. }
  repeat split.
  unfold final_states, is_final. cbn [self states finals List.filter oid].
  destruct (finals_three f) as (H0 & H1 & H2). cbn zeta in H0, H1, H2.
  rewrite H0, H1, H2. reflexivity.
Qed.

(** C2 as stated fails: the import does not yield 7 transitions. *)
Lemma parse_example_table_not_7_transitions :
  exists w',
    parse_csv_default example_table empty_world = (Return tt, w')
    /\ length (transitions (self w')) <> 7.
Proof.
  eexists. split; [vm_compute; reflexivity |]. cbn. discriminate.
Qed.

(** ** [build_jff]: the two preconditions *)

Lemma has_final_state_true (w : World) :
  has_final_state w = true <->
  exists state, state ∈ states (self w) /\ is_final w state = true.
Proof.
  unfold has_final_state, final_states. rewrite Nat.ltb_lt. split.
  - destruct (List.filter _ _) as [| s l] eqn:F; cbn; [lia |]. intros _.
    assert (Hin : In s (List.filter (is_final w) (states (self w))))
      by (rewrite F; now left).
    apply filter_In in Hin as [Hin Hf]. exists s. split; [| exact Hf].
    now apply list_elem_of_In.
  - intros (s & Hin & Hf). apply list_elem_of_In in Hin.
    assert (Hs : In s (List.filter (is_final w) (states (self w))))
      by (apply filter_In; now split).
    destruct (List.filter _ _); [contradiction | cbn; lia].
Qed.

Lemma has_final_state_false (w : World) :
  has_final_state w = false <->
  forall state, state ∈ states (self w) -> is_final w state = false.
Proof.
  rewrite <- not_true_iff_false, has_final_state_true. split.
  - intros H s Hin. apply not_true_iff_false. intros Hf. apply H. now exists s.
  - intros H (s & Hin & Hf). rewrite (H s Hin) in Hf. discriminate.
Qed.

(** C7, as the code behaves: [build_jff] fails with NoInitialStateError
    whenever no initial state is set, and with NoFinalStateError whenever an
    initial state is set and no state of the automaton is final, whatever
    the states and transitions are otherwise; both failures leave the file
    system (the whole world) untouched, for every behaviour of the path
    functions. *)
Theorem build_jff_preconditions
    (abspath : string -> string) (join : string -> string -> string)
    (split : string -> string * string)
    (filename : string) (dirname : option string)
    (drawing_radius_factor drawing_margin : R) (w : World) :
  (initial_state (self w) = None ->
   build_jff abspath join split filename dirname drawing_radius_factor
     drawing_margin w
   = (Raise NoInitialStateError, w))
  /\ (initial_state (self w) <> None ->
      (forall state, state ∈ states (self w) -> is_final w state = false) ->
      build_jff abspath join split filename dirname drawing_radius_factor
        drawing_margin w
      = (Raise NoFinalStateError, w)).
Proof.
  unfold build_jff, mbind, M_bind, gets, raise. split.
  - intros H. unfold has_initial_state. now rewrite H.
  - intros H Hf. apply has_final_state_false in Hf.
    assert (Hi : has_initial_state (self w) = true).
    { unfold has_initial_state.
      destruct (initial_state (self w)); [reflexivity | contradiction]. }
    cbv beta iota. rewrite Hi. cbv beta iota. cbn [negb].
    now rewrite Hf.
Qed.

Lemma build_jff_preconditions_witness :
  build_jff plain_abspath plain_join plain_split "out" None 25 100
    one_state_world
  = (Raise NoInitialStateError, one_state_world)
  /\ build_jff plain_abspath plain_join plain_split "out" None 25 100
       (with_self (mkAutomaton (Some q_state) [q_state] []) one_state_world)
     = (Raise NoFinalStateError,
        with_self (mkAutomaton (Some q_state) [q_state] []) one_state_world).
Proof.
  split.
  - apply (build_jff_preconditions plain_abspath plain_join plain_split "out"
             None 25 100 one_state_world).
    reflexivity.
  - apply (build_jff_preconditions plain_abspath plain_join plain_split "out"
             None 25 100
             (with_self (mkAutomaton (Some q_state) [q_state] [])
                one_state_world)).
    + discriminate.
    + intros state H. cbn in H. apply list_elem_of_singleton in H. subst.
      reflexivity.
Defined.

(** C7 as stated fails: the automaton below has no final state, yet the
    failure of [build_jff] is NoInitialStateError, not NoFinalStateError. *)
Lemma build_jff_no_final_state_counterexample :
  (forall state, state ∈ states (self one_state_world) ->
     is_final one_state_world state = false)
  /\ build_jff plain_abspath plain_join plain_split "out" None 25 100
       one_state_world
     <> (Raise NoFinalStateError, one_state_world).
Proof.
  split.
  - intros state H. cbn in H. apply list_elem_of_singleton in H. subst.
    reflexivity.
  - lazy. discriminate.
Qed.

(** ** The structural invariant and State objects of the caller *)

(** C3 at the failing input: the automaton holds the State object 0 named
    [q]; the caller creates a second State object named [q] (object 1) and
    passes it to [add_transition] and to the [initial_state] setter.  Both
    accept it, because membership is tested by name, and the automaton then
    breaks the structural invariant it satisfied before; [build_jff] later
    stops with ValueError in [list.index]. *)
Theorem foreign_state_breaks_invariant :
  State_init "q" one_state_world = (Return foreign_q, two_objects_world)
  /\ structural_invariant (self two_objects_world)
  /\ (exists t w',
        add_transition foreign_q None None two_objects_world = (Return t, w')
        /\ ~ structural_invariant (self w'))
  /\ (exists w',
        set_initial_state foreign_q two_objects_world = (Return tt, w')
        /\ ~ structural_invariant (self w'))
  /\ (exists t w1 w2 w3,
        add_transition foreign_q None None two_objects_world = (Return t, w1)
        /\ set_initial_state q_state w1 = (Return tt, w2)
        /\ set_is_final q_state true w2 = (Return tt, w3)
        /\ fst (build_jff plain_abspath plain_join plain_split "out" None
                  25 100
                  (with_disk (mkFileSystem [""] []) w3))
           = Raise ValueError).
Proof.
  split; [reflexivity |]. split.
  { split.
    - intros t H. cbn in H. inversion H.
    - intros i H. discriminate. }
  split.
  { eexists _, _. split; [lazy; reflexivity |]. intros [H _].
    destruct (H (Transition_init foreign_q None None)) as [(s & Hin & Ho) _].
    - cbn. apply list_elem_of_singleton. reflexivity.
    - cbn in Hin. apply list_elem_of_singleton in Hin. subst. discriminate. }
  split.
  { eexists. split; [lazy; reflexivity |]. intros [_ H].
    destruct (H foreign_q eq_refl) as (s & Hin & Ho).
    cbn in Hin. apply list_elem_of_singleton in Hin. subst. discriminate. }
  eexists _, _, _, _.
  split; [lazy; reflexivity |].
  split; [lazy; reflexivity |].
  split; [lazy; reflexivity |].
  lazy. reflexivity.
Qed.

(** ** [parse_csv]: removing the two columns *)

Lemma pop_in_range {A : Type} (l : list A) (i : Z) :
  (0 <= i < Z.of_nat (length l))%Z ->
  exists x, l !! Z.to_nat i = Some x /\ pop l i = Some (x, delete (Z.to_nat i) l).
Proof.
  intros Hi. unfold pop. cbv zeta.
  assert (Hneg : (i <? 0)%Z = false) by (apply Z.ltb_ge; lia).
  assert (Hge : (Z.of_nat (length l) <=? i)%Z = false) by (apply Z.leb_gt; lia).
  rewrite Hneg, Hneg, Hge. cbn [orb].
  destruct (l !! Z.to_nat i) as [x |] eqn:Hx.
  - now exists x.
  - apply lookup_ge_None in Hx. lia.
Qed.

(** Columns before the current position do not matter. *)
Lemma without_columns_from_ext (k : nat) (c1 c2 : list nat) (row : Row) :
  (forall x, k <= x -> x ∈ c1 <-> x ∈ c2) ->
  without_columns_from k c1 row = without_columns_from k c2 row.
Proof.
  revert k. induction row as [| cell row IH]; intros k H; [reflexivity |].
  cbn. rewrite (IH (S k)) by (intros x Hx; apply H; lia).
  destruct (bool_decide (k ∈ c1)) eqn:H1, (bool_decide (k ∈ c2)) eqn:H2;
    try reflexivity.
  - apply bool_decide_eq_true in H1. apply bool_decide_eq_false in H2.
    exfalso. apply H2. now apply (H k).
  - apply bool_decide_eq_false in H1. apply bool_decide_eq_true in H2.
    exfalso. apply H1. now apply (H k).
Qed.

Lemma without_columns_from_past (k : nat) (c : list nat) (row : Row) :
  (forall x, x ∈ c -> x < k) -> without_columns_from k c row = row.
Proof.
  revert k. induction row as [| cell row IH]; intros k H; [reflexivity |].
  cbn. rewrite (IH (S k)) by (intros x Hx; specialize (H x Hx); lia).
  rewrite bool_decide_eq_false_2; [reflexivity |].
  intros Hk. specialize (H k Hk). lia.
Qed.

Lemma delete_one_column (k i : nat) (row : Row) :
  delete i row = without_columns_from k [k + i] row.
Proof.
  revert k i. induction row as [| cell row IH]; intros k i; [reflexivity |].
  destruct i as [| i]; cbn [without_columns_from].
  - change (delete 0 (cell :: row)) with row.
    rewrite bool_decide_eq_true_2
      by (rewrite Nat.add_0_r; apply list_elem_of_singleton; reflexivity).
    symmetry. apply without_columns_from_past.
    intros x Hx. apply list_elem_of_singleton in Hx. lia.
  - change (delete (S i) (cell :: row)) with (cell :: delete i row).
    rewrite bool_decide_eq_false_2
      by (intros H; apply list_elem_of_singleton in H; lia).
    f_equal. rewrite (IH (S k) i). f_equal. f_equal. lia.
Qed.

(** Higher index first: the second removal is not shifted. *)
Lemma delete_two_columns_down (k i j : nat) (row : Row) :
  j < i ->
  delete j (delete i row) = without_columns_from k [k + i; k + j] row.
Proof.
  revert k i j. induction row as [| cell row IH]; intros k i j Hji;
    [reflexivity |].
  destruct i as [| i]; [lia |].
  change (delete (S i) (cell :: row)) with (cell :: delete i row).
  destruct j as [| j]; cbn [without_columns_from].
  - change (delete 0 (cell :: delete i row)) with (delete i row).
    rewrite bool_decide_eq_true_2
      by (rewrite Nat.add_0_r; apply elem_of_cons; right;
          apply list_elem_of_singleton; reflexivity).
    rewrite (delete_one_column (S k) i).
    apply without_columns_from_ext. intros x Hx.
    rewrite !elem_of_cons, !elem_of_nil. lia.
  - change (delete (S j) (cell :: delete i row))
      with (cell :: delete j (delete i row)).
    rewrite bool_decide_eq_false_2
      by (rewrite !elem_of_cons, elem_of_nil; lia).
    f_equal. rewrite (IH (S k) i j) by lia.
    apply without_columns_from_ext. intros x Hx.
    rewrite !elem_of_cons, !elem_of_nil. lia.
Qed.

(** Lower index first: the second removal is shifted left by one. *)
Lemma delete_two_columns_up (k i j : nat) (row : Row) :
  i < j ->
  delete (j - 1) (delete i row) = without_columns_from k [k + i; k + j] row.
Proof.
  revert k i j. induction row as [| cell row IH]; intros k i j Hij;
    [reflexivity |].
  destruct j as [| j]; [lia |].
  replace (S j - 1) with j by lia.
  destruct i as [| i]; cbn [without_columns_from].
  - change (delete 0 (cell :: row)) with row.
    rewrite bool_decide_eq_true_2
      by (rewrite Nat.add_0_r; apply elem_of_cons; left; reflexivity).
    rewrite (delete_one_column (S k) j).
    apply without_columns_from_ext. intros x Hx.
    rewrite !elem_of_cons, !elem_of_nil. lia.
  - change (delete (S i) (cell :: row)) with (cell :: delete i row).
    destruct j as [| j]; [lia |].
    change (delete (S j) (cell :: delete i row))
      with (cell :: delete j (delete i row)).
    rewrite bool_decide_eq_false_2
      by (rewrite !elem_of_cons, elem_of_nil; lia).
    f_equal. specialize (IH (S k) i (S j)).
    replace (S j - 1) with j in IH by lia.
    rewrite IH by lia.
    apply without_columns_from_ext. intros x Hx.
    rewrite !elem_of_cons, !elem_of_nil. lia.
Qed.

Lemma sorted_pair_rev (s m : Z) :
  rev (sorted [s; m]) = if (s <=? m)%Z then [m; s] else [s; m].
Proof. cbn. now destruct (s <=? m)%Z. Qed.

Lemma pop_each_two (row : Row) (i j : Z) (x y : string) (r1 r2 : Row) :
  pop row i = Some (x, r1) -> pop r1 j = Some (y, r2) ->
  forall w, pop_each row [i; j] w = (Return r2, w).
Proof.
  intros H1 H2 w. cbn [pop_each]. unfold pop_or_raise. rewrite H1.
  unfold mbind, M_bind, mret, M_ret. cbv beta iota. now rewrite H2.
Qed.

(** The two removals of the first pass, for indices inside the row. *)
Lemma first_pass_pops (s m : Z) (row : Row) :
  (0 <= s < Z.of_nat (length row))%Z ->
  (0 <= m < Z.of_nat (length row))%Z ->
  s <> m ->
  exists cell state_type,
    row !! Z.to_nat s = Some cell
    /\ row !! Z.to_nat m = Some state_type
    /\ pop row s = Some (cell, delete (Z.to_nat s) row)
    /\ pop (delete (Z.to_nat s) row) (m - Z.b2z (s <? m))%Z
       = Some (state_type, without_columns [Z.to_nat s; Z.to_nat m] row).
Proof.
  intros Hs Hm Hne.
  destruct (pop_in_range row _ Hs) as (cell & Hcell & Hpop1).
  destruct (pop_in_range row _ Hm) as (state_type & Htype & Hpopm).
  exists cell, state_type.
  split; [exact Hcell |]. split; [exact Htype |]. split; [exact Hpop1 |].
  assert (Hlen : length (delete (Z.to_nat s) row) = length row - 1)
    by (apply length_delete; eauto).
  destruct (s <? m)%Z eqn:Hlt.
  - apply Z.ltb_lt in Hlt. cbn [Z.b2z].
    destruct (pop_in_range (delete (Z.to_nat s) row) (m - 1))
      as (x & Hx & Hp); [lia |].
    replace (Z.to_nat (m - 1)) with (Z.to_nat m - 1) in * by lia.
    rewrite list_lookup_delete_ge in Hx by lia.
    replace (S (Z.to_nat m - 1)) with (Z.to_nat m) in Hx by lia.
    rewrite Htype in Hx. injection Hx as <-.
    rewrite Hp. do 2 f_equal. unfold without_columns.
    apply (delete_two_columns_up 0 (Z.to_nat s) (Z.to_nat m)). lia.
  - apply Z.ltb_ge in Hlt. cbn [Z.b2z]. rewrite Z.sub_0_r.
    destruct (pop_in_range (delete (Z.to_nat s) row) m)
      as (x & Hx & Hp); [lia |].
    rewrite list_lookup_delete_lt in Hx by lia.
    rewrite Htype in Hx. injection Hx as <-.
    rewrite Hp. do 2 f_equal. unfold without_columns.
    apply (delete_two_columns_down 0 (Z.to_nat s) (Z.to_nat m)). lia.
Qed.

(** The first loop body reads the original cells of the row. *)
Lemma parse_state_row_in_range
    (initial_state_symbol final_state_symbol : string) (s m : Z) (row : Row)
    (cell state_type : string) :
  (0 <= s < Z.of_nat (length row))%Z ->
  (0 <= m < Z.of_nat (length row))%Z ->
  s <> m ->
  row !! Z.to_nat s = Some cell ->
  row !! Z.to_nat m = Some state_type ->
  forall w,
    parse_state_row initial_state_symbol final_state_symbol s m row w
    = (add_state cell ≫=
         fun state =>
           mark_state initial_state_symbol final_state_symbol state state_type)
        w.
Proof.
  intros Hs Hm Hne Hcell Htype w.
  destruct (first_pass_pops s m row Hs Hm Hne)
    as (cell' & type' & Hc & Ht & Hpop1 & Hpop2).
  rewrite Hcell in Hc. injection Hc as <-.
  rewrite Htype in Ht. injection Ht as <-.
  unfold parse_state_row, pop_or_raise. rewrite Hpop1.
  unfold mbind at 1. unfold M_bind at 1. cbn [mret M_ret].
  unfold mbind at 1 3. unfold M_bind at 1 3.
  destruct (add_state cell w) as [[state | e] w1]; [| reflexivity].
  rewrite Hpop2. reflexivity.
Qed.

(** The removals of the second pass, for indices inside the row. *)
Lemma pop_each_in_range (s m : Z) (row : Row) :
  (0 <= s < Z.of_nat (length row))%Z ->
  (0 <= m < Z.of_nat (length row))%Z ->
  s <> m ->
  forall w,
    pop_each row (rev (sorted [s; m])) w
    = (Return (without_columns [Z.to_nat s; Z.to_nat m] row), w).
Proof.
  intros Hs Hm Hne w.
  destruct (pop_in_range row _ Hs) as (cell & Hcell & Hpop1).
  destruct (pop_in_range row _ Hm) as (state_type & Htype & Hpopm).
  rewrite sorted_pair_rev.
  destruct (s <=? m)%Z eqn:Hle.
  - apply Z.leb_le in Hle.
    destruct (pop_in_range (delete (Z.to_nat m) row) s) as (x & Hx & Hp);
      [rewrite length_delete by eauto; lia |].
    rewrite (pop_each_two _ _ _ _ _ _ _ Hpopm Hp).
    do 2 f_equal. unfold without_columns.
    rewrite (delete_two_columns_down 0 (Z.to_nat m) (Z.to_nat s)) by lia.
    apply without_columns_from_ext. intros y _.
    rewrite !elem_of_cons, !elem_of_nil. cbn. tauto.
  - apply Z.leb_gt in Hle.
    destruct (pop_in_range (delete (Z.to_nat s) row) m) as (x & Hx & Hp);
      [rewrite length_delete by eauto; lia |].
    rewrite (pop_each_two _ _ _ _ _ _ _ Hpop1 Hp).
    do 2 f_equal. unfold without_columns.
    apply (delete_two_columns_down 0 (Z.to_nat s) (Z.to_nat m)). lia.
Qed.

(** ** [build_jff]: the transition elements and a concrete run *)

Lemma jff_transition_list_world (l : list Transition) (w w' : World)
    (r : Result (list JffTransition)) :
  jff_transition_list l w = (r, w') -> w' = w.
Proof.
  revert r w'. induction l as [| t l IH]; intros r w' H.
  - now injection H as _ <-.
  - cbn [jff_transition_list] in H.
    unfold jff_transition in H.
    unfold mbind, M_bind, gets, raise, mret, M_ret in H.
    cbv beta iota in H.
    destruct (index_of (origin t) (states (self w)));
      [| now injection H as _ <-].
    destruct (index_of (target t) (states (self w)));
      [| now injection H as _ <-].
    cbv beta iota in H.
    destruct (jff_transition_list l w) as [[es | e] w1];
      specialize (IH _ _ eq_refl); subst w1; now injection H as _ <-.
Qed.

Lemma build_jff_four_states :
  fst (build_jff plain_abspath plain_join plain_split "out" None 25 100
         four_states_world)
  = Return "out.jff".
Proof. lazy -[position radius angle]. reflexivity. Qed.

(** ** [parse_csv]: one condition label in two columns *)



Lemma grows_refl (w : World) : grows w w.
Proof. split; [reflexivity |]. exists []. now rewrite app_nil_r. Qed.

Lemma grows_trans (w1 w2 w3 : World) : grows w1 w2 -> grows w2 w3 -> grows w1 w3.
Proof.
  intros [Hs1 [t1 Ht1]] [Hs2 [t2 Ht2]]. split; [congruence |].
  exists (t1 ++ t2). now rewrite Ht2, Ht1, app_assoc.
Qed.

Lemma grows_append (t : Transition) (w : World) : grows w (append_transition t w).
Proof. split; [reflexivity |]. now exists [t]. Qed.


Lemma grows_get_state (w w' : World) (n : string) :
  grows w w' -> get_state (self w') n = get_state (self w) n.
Proof. intros [Hs _]. unfold get_state. now rewrite Hs. Qed.


Lemma add_transition_inv (o : State) (t : option State) (c : option string)
    (w w' : World) (r : Result Transition) :
  add_transition o t c w = (r, w') ->
  match r with
  | Return tr =>
      tr = Transition_init o t c
      /\ has_transition (self w) o c = false
      /\ w' = append_transition tr w
  | Raise _ => w' = w
  end.
Proof.
  unfold add_transition. step.
  destruct (has_transition (self w) o c); [now intros [= <- <-] |].
  destruct (has_state (self w) (name o)); [| now intros [= <- <-]].
  destruct t as [t |]; cbn.
  - destruct (has_state (self w) (name t)); now intros [= <- <-].
  - now intros [= <- <-].
Qed.


Section Cells.

Variables (no_transition_symbol empty_string_symbol : string).

Lemma parse_cell_grows (state : State) (cell : string * string) (w w' : World)
    (r : Result unit) :
  parse_cell no_transition_symbol empty_string_symbol state cell w = (r, w') -> grows w w'.
Proof.
  unfold parse_cell. destruct cell as [label v].
  destruct (String.eqb v no_transition_symbol).
  - intros [= <- <-]. apply grows_refl.
  - unfold mbind, M_bind, gets, raise, mret, M_ret. cbv beta iota.
    destruct (get_state (self w) v) as [t |];
      [| intros [= <- <-]; apply grows_refl].
    destruct (add_transition state (Some t) _ w) as [[tr | e] w1] eqn:Ha;
      apply add_transition_inv in Ha; intros [= <- <-].
    + destruct Ha as (_ & _ & ->). apply grows_append.
    + subst w1. apply grows_refl.
Qed.

Lemma for_each_cells_grows (state : State) (l : list (string * string))
    (w w' : World) (r : Result unit) :
  for_each l (parse_cell no_transition_symbol empty_string_symbol state) w = (r, w') -> grows w w'.
Proof.
  revert w. induction l as [| c l IH]; intros w; cbn [for_each].
  - intros [= <- <-]. apply grows_refl.
  - unfold mbind, M_bind.
    destruct (parse_cell no_transition_symbol empty_string_symbol state c w) as [[[] | e] w1] eqn:Hc;
      apply parse_cell_grows in Hc.
    + intros H. apply IH in H. now apply (grows_trans _ w1).
    + now intros [= <- <-].
Qed.



End Cells.

(** *** Removals that succeed are inside the row *)

Lemma pop_Some_inv {A : Type} (l : list A) (i : Z) (x : A) (r : list A) :
  (0 <= i)%Z -> pop l i = Some (x, r) ->
  (i < Z.of_nat (length l))%Z
  /\ l !! Z.to_nat i = Some x /\ r = delete (Z.to_nat i) l.
Proof.
  intros Hi. unfold pop. cbv zeta.
  assert (Hneg : (i <? 0)%Z = false) by (apply Z.ltb_ge; lia).
  rewrite Hneg, Hneg. cbn [orb].
  destruct (Z.of_nat (length l) <=? i)%Z eqn:Hge; [discriminate |].
  apply Z.leb_gt in Hge.
  destruct (l !! Z.to_nat i) as [y |]; [| discriminate].
  intros [= <- <-]. auto.
Qed.

Lemma pop_or_raise_inv {A : Type} (l : list A) (i : Z) (w w' : World)
    (r : Result (A * list A)) :
  pop_or_raise l i w = (r, w') ->
  w' = w /\ forall x l', r = Return (x, l') -> pop l i = Some (x, l').
Proof.
  unfold pop_or_raise. destruct (pop l i) as [[x l'] |].
  - intros [= <- <-]. split; [reflexivity |]. now intros ? ? [= <- <-].
  - intros [= <- <-]. split; [reflexivity |]. discriminate.
Qed.

Lemma pop_each_world (row : Row) (indices : list Z) (w w' : World)
    (r : Result Row) :
  pop_each row indices w = (r, w') -> w' = w.
Proof.
  revert row. induction indices as [| i indices IH]; intros row; cbn [pop_each].
  - now intros [= <- <-].
  - unfold mbind, M_bind.
    destruct (pop_or_raise row i w) as [[[x row'] | e] w1] eqn:Hp;
      apply pop_or_raise_inv in Hp as [-> _].
    + apply IH.
    + now intros [= <- <-].
Qed.

Lemma pop_each_pair_inv (s m : Z) (row r : Row) (w w' : World) :
  (0 <= s)%Z -> (0 <= m)%Z -> s <> m ->
  pop_each row (rev (sorted [s; m])) w = (Return r, w') ->
  (s < Z.of_nat (length row))%Z /\ (m < Z.of_nat (length row))%Z
  /\ r = without_columns [Z.to_nat s; Z.to_nat m] row /\ w' = w.
Proof.
  intros Hs Hm Hne H.
  assert (Hmax : (Z.max s m < Z.of_nat (length row))%Z).
  { rewrite sorted_pair_rev in H.
    assert (Hfirst : exists rest, (if (s <=? m)%Z then [m; s] else [s; m])
                                  = Z.max s m :: rest).
    { destruct (s <=? m)%Z eqn:Hle.
      - apply Z.leb_le in Hle. exists [s]. f_equal. lia.
      - apply Z.leb_gt in Hle. exists [m]. f_equal. lia. }
    destruct Hfirst as [rest Hrest]. rewrite Hrest in H.
    cbn [pop_each] in H. unfold mbind, M_bind in H.
    destruct (pop_or_raise row (Z.max s m) w) as [[[x row'] | e] w1] eqn:Hp;
      [| discriminate].
    apply pop_or_raise_inv in Hp as [_ Hp].
    specialize (Hp x row' eq_refl).
    apply pop_Some_inv in Hp as [Hlt _]; lia. }
  assert (Hs' : (0 <= s < Z.of_nat (length row))%Z) by lia.
  assert (Hm' : (0 <= m < Z.of_nat (length row))%Z) by lia.
  rewrite (pop_each_in_range s m row Hs' Hm' Hne) in H.
  injection H as <- <-. repeat split; lia.
Qed.

(** *** The retained cells around a column *)





(** *** The first pass: one state per data row *)

Section FirstPass.

Variables (initial_state_symbol final_state_symbol : string).
Variables (states_col_index state_symbols_col_index : Z).

Hypothesis states_col_nonneg : (0 <= states_col_index)%Z.
Hypothesis state_symbols_col_nonneg : (0 <= state_symbols_col_index)%Z.
Hypothesis cols_distinct : states_col_index <> state_symbols_col_index.

Local Abbreviation state_row :=
  (parse_state_row initial_state_symbol final_state_symbol states_col_index
     state_symbols_col_index).

Lemma mark_state_states (state : State) (state_type : string) (w w' : World)
    (r : Result unit) :
  mark_state initial_state_symbol final_state_symbol state state_type w
  = (r, w') ->
  states (self w') = states (self w).
Proof.
  unfold mark_state, set_initial_state, set_is_final.
  unfold mbind, M_bind, gets, modify, raise, mret, M_ret. cbv beta iota.
  destruct (contains initial_state_symbol state_type).
  - destruct (initial_state (self w)); [now intros [= <- <-] |].
    destruct (has_state (self w) (name state)); [| now intros [= <- <-]].
    destruct (contains final_state_symbol state_type); now intros [= <- <-].
  - destruct (contains final_state_symbol state_type); now intros [= <- <-].
Qed.

(** A row that the first loop accepted holds both columns and gave its
    name cell to the one state it appended. *)
Lemma parse_state_row_inv (row : Row) (w w' : World) :
  state_row row w = (Return tt, w') ->
  (states_col_index < Z.of_nat (length row))%Z
  /\ (state_symbols_col_index < Z.of_nat (length row))%Z
  /\ exists state,
       states (self w') = states (self w) ++ [state]
       /\ row !! Z.to_nat states_col_index = Some (name state).
Proof.
  unfold parse_state_row, mbind, M_bind.
  destruct (pop_or_raise row states_col_index w) as [[[cell r1] | e] wa] eqn:Hp1;
    [| discriminate].
  apply pop_or_raise_inv in Hp1 as [-> Hp1]. specialize (Hp1 _ _ eq_refl).
  apply pop_Some_inv in Hp1 as (Hlt & Hcell & ->); [| assumption].
  destruct (add_state cell w) as [[state | e] wb] eqn:Ha; [| discriminate].
  apply add_state_inv in Ha as (Hname & _ & _ & _ & Hself & _).
  match goal with
  | |- context [pop_or_raise ?l ?i wb] =>
      destruct (pop_or_raise l i wb) as [[[ty r2] | e] wc] eqn:Hp2;
        [| discriminate]
  end.
  apply pop_or_raise_inv in Hp2 as [-> Hp2]. specialize (Hp2 _ _ eq_refl).
  apply pop_Some_inv in Hp2 as (Hlt2 & _ & _).
  2:{ destruct (states_col_index <? state_symbols_col_index)%Z eqn:E;
        cbn [Z.b2z]; [apply Z.ltb_lt in E |]; lia. }
  intros Hmark. apply mark_state_states in Hmark.
  rewrite length_delete in Hlt2 by (apply lookup_lt_is_Some; lia).
  split; [exact Hlt |]. split.
  - destruct (states_col_index <? state_symbols_col_index)%Z eqn:E;
      cbn [Z.b2z] in Hlt2; [lia |]. apply Z.ltb_ge in E. lia.
  - exists state. rewrite Hmark, Hself. cbn [states].
    split; [reflexivity |]. now rewrite Hname.
Qed.




End FirstPass.

(** *** The second pass on a row with the label in two columns *)

Section DuplicateLabel.

Variables (initial_state_symbol final_state_symbol : string).
Variables (no_transition_symbol empty_string_symbol : string).
Variables (states_col_index state_symbols_col_index : Z).
Variables (header row : Row) (i j : nat) (label v1 v2 : string).

Hypothesis states_col_nonneg : (0 <= states_col_index)%Z.
Hypothesis state_symbols_col_nonneg : (0 <= state_symbols_col_index)%Z.
Hypothesis cols_distinct : states_col_index <> state_symbols_col_index.
Hypothesis columns_ordered : i < j.
Hypothesis i_not_name : i <> Z.to_nat states_col_index.
Hypothesis i_not_marker : i <> Z.to_nat state_symbols_col_index.
Hypothesis j_not_name : j <> Z.to_nat states_col_index.
Hypothesis j_not_marker : j <> Z.to_nat state_symbols_col_index.
Hypothesis header_i : header !! i = Some label.
Hypothesis header_j : header !! j = Some label.
Hypothesis label_compared : label <> "" \/ label = empty_string_symbol.
Hypothesis row_i : row !! i = Some v1.
Hypothesis row_j : row !! j = Some v2.
Hypothesis v1_target : v1 <> no_transition_symbol.
Hypothesis v2_target : v2 <> no_transition_symbol.

Local Abbreviation cell_body :=
  (parse_cell no_transition_symbol empty_string_symbol).
Local Abbreviation indices :=
  (rev (sorted [states_col_index; state_symbols_col_index])).
Local Abbreviation removed :=
  [Z.to_nat states_col_index; Z.to_nat state_symbols_col_index].
Local Abbreviation duplicate_error state :=
  (TransitionExistsError (name state) (when_of_label empty_string_symbol label)).






Local Abbreviation populate' :=
  (populate initial_state_symbol final_state_symbol no_transition_symbol
     empty_string_symbol states_col_index state_symbols_col_index).



End DuplicateLabel.




(** ** The structural invariant: what does preserve it *)

Lemma is_element_states (state : State) (a a' : Automaton) (extra : list State) :
  states a' = states a ++ extra -> is_element state a -> is_element state a'.
Proof.
  intros Hs (s & Hin & Ho). exists s. split; [| exact Ho].
  rewrite Hs. apply elem_of_app. now left.
Qed.

Lemma reset_invariant (w : World) : structural_invariant (self (snd (reset w))).
Proof.
  split.
  - intros t H. cbn in H. inversion H.
  - intros i H. discriminate.
Qed.

Lemma add_state_invariant (s : string) (w w' : World) (r : Result State) :
  structural_invariant (self w) -> add_state s w = (r, w') ->
  structural_invariant (self w').
Proof.
  intros [Ht Hi] H. apply add_state_inv in H. destruct r as [state | e].
  - destruct H as (_ & _ & _ & _ & Hself & _). rewrite Hself. split.
    + cbn [transitions]. intros t Hin. destruct (Ht t Hin) as [Ho Hta].
      split; eapply is_element_states; eauto; reflexivity.
    + cbn [initial_state]. intros i Hinit.
      eapply is_element_states; [reflexivity | now apply Hi].
  - now subst w'.
Qed.

(** [add_transition] keeps the invariant when it is given State objects of
    the automaton. *)
Lemma add_transition_member_invariant (origin' : State)
    (target' : option State) (when' : option string) (w w' : World)
    (r : Result Transition) :
  structural_invariant (self w) ->
  is_element origin' (self w) ->
  (forall t, target' = Some t -> is_element t (self w)) ->
  add_transition origin' target' when' w = (r, w') ->
  structural_invariant (self w').
Proof.
  intros [Ht Hi] Ho Hta H. apply add_transition_inv in H.
  destruct r as [tr | e]; [| now subst w'].
  destruct H as (-> & _ & ->). split.
  - cbn [append_transition with_self self transitions states].
    intros t Hin. apply elem_of_app in Hin as [Hin | Hin].
    + destruct (Ht t Hin) as [H1 H2].
      split; eapply is_element_states; eauto; cbn; now rewrite app_nil_r.
    + apply list_elem_of_singleton in Hin. subst t.
      unfold Transition_init. cbn [origin target]. split.
      * eapply is_element_states; [| exact Ho]. cbn. now rewrite app_nil_r.
      * eapply is_element_states; [cbn; now rewrite app_nil_r |].
        destruct target' as [t |]; [now apply Hta | exact Ho].
  - cbn. exact Hi.
Qed.

(** The [initial_state] setter keeps the invariant when it is given a State
    object of the automaton. *)
Lemma set_initial_state_member_invariant (state : State) (w w' : World)
    (r : Result unit) :
  structural_invariant (self w) ->
  is_element state (self w) ->
  set_initial_state state w = (r, w') ->
  structural_invariant (self w').
Proof.
  intros [Ht Hi] Hs. unfold set_initial_state. step.
  destruct (has_state (self w) (name state)); intros [= <- <-]; cbn.
  - split; [exact Ht |]. cbn. now intros i [= <-].
  - now split.
Qed.

Section ParseCsvInvariant.

Variables (initial_state_symbol final_state_symbol : string).
Variables (no_transition_symbol empty_string_symbol : string).
Variables (states_col_index state_symbols_col_index : Z).

Lemma mark_state_invariant (state : State) (state_type : string)
    (w w' : World) (r : Result unit) :
  structural_invariant (self w) -> is_element state (self w) ->
  mark_state initial_state_symbol final_state_symbol state state_type w
  = (r, w') ->
  structural_invariant (self w').
Proof.
  intros Hinv Hs.
  unfold mark_state, set_is_final.
  unfold mbind, M_bind, gets, modify, raise, mret, M_ret. cbv beta iota.
  assert (Hfinal : forall w1 (r1 : Result unit) w2,
            structural_invariant (self w1) ->
            (if contains final_state_symbol state_type
             then fun w0 : World =>
                    (Return tt, with_finals (<[oid state := true]> (finals w0)) w0)
             else fun w0 : World => (Return tt, w0)) w1 = (r1, w2) ->
            structural_invariant (self w2)).
  { intros w1 r1 w2 H1.
    destruct (contains final_state_symbol state_type); now intros [= <- <-]. }
  destruct (contains initial_state_symbol state_type).
  - destruct (initial_state (self w)); [now intros [= <- <-] |].
    destruct (set_initial_state state w) as [[[] | e] w1] eqn:Hset;
      apply set_initial_state_member_invariant in Hset; try assumption.
    + now apply Hfinal.
    + now intros [= <- <-].
  - now apply Hfinal.
Qed.

Lemma parse_state_row_invariant (row : Row) (w w' : World) (r : Result unit) :
  structural_invariant (self w) ->
  parse_state_row initial_state_symbol final_state_symbol states_col_index
    state_symbols_col_index row w = (r, w') ->
  structural_invariant (self w').
Proof.
  intros Hinv. unfold parse_state_row, mbind, M_bind.
  destruct (pop_or_raise row states_col_index w) as [[[cell r1] | e] wa] eqn:Hp1;
    apply pop_or_raise_inv in Hp1 as [-> _]; [| now intros [= <- <-]].
  destruct (add_state cell w) as [[state | e] wb] eqn:Ha.
  - pose proof (add_state_invariant _ _ _ _ Hinv Ha) as Hinvb.
    apply add_state_inv in Ha as (_ & _ & _ & _ & Hself & _).
    match goal with
    | |- context [pop_or_raise ?l ?i wb] =>
        destruct (pop_or_raise l i wb) as [[[ty r2] | e] wc] eqn:Hp2;
          apply pop_or_raise_inv in Hp2 as [-> _]
    end; [| now intros [= <- <-]].
    apply mark_state_invariant; [exact Hinvb |].
    exists state. split; [| reflexivity]. rewrite Hself. cbn.
    apply elem_of_app. right. apply list_elem_of_singleton. reflexivity.
  - pose proof (add_state_invariant _ _ _ _ Hinv Ha). now intros [= <- <-].
Qed.

Lemma first_pass_invariant (rows : list Row) (w w' : World) (r : Result unit) :
  structural_invariant (self w) ->
  for_each rows
    (parse_state_row initial_state_symbol final_state_symbol states_col_index
       state_symbols_col_index) w = (r, w') ->
  structural_invariant (self w').
Proof.
  revert w. induction rows as [| row rows IH]; intros w Hinv; cbn [for_each].
  - now intros [= <- <-].
  - unfold mbind, M_bind.
    match goal with
    | |- context [parse_state_row ?a ?b ?c ?d row w] =>
        destruct (parse_state_row a b c d row w) as [[[] | e] w1] eqn:Hrow
    end; apply parse_state_row_invariant in Hrow; try assumption.
    + now apply IH.
    + now intros [= <- <-].
Qed.

Lemma parse_cell_invariant (state : State) (cell : string * string)
    (w w' : World) (r : Result unit) :
  structural_invariant (self w) -> is_element state (self w) ->
  parse_cell no_transition_symbol empty_string_symbol state cell w = (r, w') ->
  structural_invariant (self w').
Proof.
  intros Hinv Hs. unfold parse_cell. destruct cell as [label v].
  destruct (String.eqb v no_transition_symbol); [now intros [= <- <-] |].
  unfold mbind, M_bind, gets, raise, mret, M_ret. cbv beta iota.
  destruct (get_state (self w) v) as [t |] eqn:Hget; [| now intros [= <- <-]].
  assert (Ht : is_element t (self w)).
  { unfold get_state in Hget. apply find_some in Hget as [Hin _].
    exists t. split; [now apply list_elem_of_In | reflexivity]. }
  destruct (add_transition state (Some t) _ w) as [[tr | e] w1] eqn:Ha;
    apply add_transition_member_invariant in Ha; try assumption;
    try (now intros ? [= <-]); now intros [= <- <-].
Qed.

Lemma cells_invariant (state : State) (l : list (string * string))
    (w w' : World) (r : Result unit) :
  structural_invariant (self w) -> is_element state (self w) ->
  for_each l (parse_cell no_transition_symbol empty_string_symbol state) w
  = (r, w') ->
  structural_invariant (self w').
Proof.
  revert w. induction l as [| c l IH]; intros w Hinv Hs; cbn [for_each].
  - now intros [= <- <-].
  - unfold mbind, M_bind.
    destruct (parse_cell no_transition_symbol empty_string_symbol state c w)
      as [[[] | e] w1] eqn:Hc.
    + pose proof (parse_cell_grows _ _ _ _ _ _ _ Hc) as [Hst _].
      apply parse_cell_invariant in Hc; try assumption.
      apply IH; [exact Hc |].
      eapply is_element_states; [| exact Hs]. rewrite Hst.
      now rewrite app_nil_r.
    + apply parse_cell_invariant in Hc; try assumption. now intros [= <- <-].
Qed.

Lemma transition_rows_invariant (columns : Row) (indices : list Z)
    (states' : list State) (rows : list Row) (w w' : World) (r : Result unit) :
  structural_invariant (self w) ->
  (forall state, state ∈ states' -> is_element state (self w)) ->
  parse_transition_rows no_transition_symbol empty_string_symbol columns
    indices states' rows w = (r, w') ->
  structural_invariant (self w').
Proof.
  revert rows w. induction states' as [| state states' IH];
    intros rows w Hinv Hall; cbn [parse_transition_rows].
  - now intros [= <- <-].
  - destruct rows as [| row rows]; [now intros [= <- <-] |].
    unfold mbind, M_bind.
    destruct (pop_each row indices w) as [[row' | e] w1] eqn:Hp;
      apply pop_each_world in Hp as ->; [| now intros [= <- <-]].
    assert (Hs : is_element state (self w))
      by (apply Hall, elem_of_cons; now left).
    destruct (for_each (zip columns row')
                (parse_cell no_transition_symbol empty_string_symbol state) w)
      as [[[] | e] w2] eqn:Hcells.
    + pose proof (for_each_cells_grows _ _ _ _ _ _ _ Hcells) as [Hst _].
      apply cells_invariant in Hcells; try assumption.
      apply IH; [exact Hcells |].
      intros s Hin. eapply is_element_states.
      * rewrite Hst. now rewrite app_nil_r.
      * apply Hall, elem_of_cons. now right.
    + apply cells_invariant in Hcells; try assumption. now intros [= <- <-].
Qed.

(** [parse_csv] keeps the invariant, whether it succeeds or fails. *)
Lemma parse_csv_invariant (input_file : list Row) (w w' : World)
    (r : Result unit) :
  structural_invariant (self w) ->
  parse_csv initial_state_symbol final_state_symbol no_transition_symbol
    empty_string_symbol states_col_index state_symbols_col_index input_file w
  = (r, w') ->
  structural_invariant (self w').
Proof.
  intros Hinv. unfold parse_csv.
  destruct (states_col_index =? state_symbols_col_index)%Z;
    [now intros [= <- <-] |].
  destruct input_file as [| columns csv_file]; [now intros [= <- <-] |].
  unfold mbind, M_bind, try_except, reset, modify, raise. cbv beta iota.
  match goal with
  | |- context [populate ?a ?b ?c ?d ?s ?m ?f ?v] =>
      destruct (populate a b c d s m f v) as [[[] | e] w1] eqn:Hpop
  end.
  2:{ intros [= <- <-]. apply (reset_invariant w1). }
  intros [= <- <-]. revert Hpop.
  unfold populate. cbn [tail]. unfold mbind, M_bind.
  match goal with
  | |- context [for_each csv_file ?body ?v] =>
      destruct (for_each csv_file body v) as [[[] | e] w2] eqn:Hfirst
  end; [| discriminate].
  apply first_pass_invariant in Hfirst; [| apply (reset_invariant w)].
  match goal with
  | |- context [pop_each columns ?idx w2] =>
      destruct (pop_each columns idx w2) as [[columns' | e] w3] eqn:Hp
  end; [| discriminate].
  apply pop_each_world in Hp as ->. unfold gets.
  intros Hrows. apply transition_rows_invariant in Hrows; try assumption.
  intros state Hin. exists state. now split.
Qed.

End ParseCsvInvariant.

(** * Further properties of the code *)

(** ** States: adding and looking up *)

Lemma find_app_first {A : Type} (f : A -> bool) (l1 l2 : list A) :
  List.find f (l1 ++ l2)
  = match List.find f l1 with
    | Some x => Some x
    | None => List.find f l2
    end.
Proof.
  induction l1 as [| x l1 IH]; cbn; [reflexivity |].
  now destruct (f x).
Qed.

Lemma has_state_get_state (a : Automaton) (n : string) :
  has_state a n = false -> get_state a n = None.
Proof. unfold has_state. now destruct (get_state a n). Qed.

(** X1: after a successful [add_state s], [get_state s] returns the very
    State object that was returned, and the look-up of every other name is
    what it was before. *)
Theorem add_state_get_state (s : string) (w w' : World) (state : State) :
  add_state s w = (Return state, w') ->
  get_state (self w') s = Some state
  /\ forall n, n <> s -> get_state (self w') n = get_state (self w) n.
Proof.
  intros H. apply add_state_inv in H as (Hname & _ & Hnew & _ & Hself & _).
  rewrite Hself. unfold get_state. cbn [states]. split.
  - rewrite find_app_first.
    apply has_state_get_state in Hnew. unfold get_state in Hnew.
    rewrite Hnew. cbn. rewrite Hname, String.eqb_refl. reflexivity.
  - intros n Hn. rewrite find_app_first.
    destruct (List.find _ (states (self w))); [reflexivity |].
    cbn. rewrite Hname. apply String.eqb_neq in Hn.
    rewrite String.eqb_sym in Hn. now rewrite Hn.
Qed.

Lemma add_state_get_state_witness :
  exists state w',
    add_state "q2" one_state_world = (Return state, w')
    /\ get_state (self w') "q2" = Some state
    /\ forall n, n <> "q2" ->
         get_state (self w') n = get_state (self one_state_world) n.
Proof.
  eexists _, _. split; [lazy; reflexivity |].
  apply (add_state_get_state "q2" one_state_world). lazy. reflexivity.
Defined.

(** X2: [add_state] keeps the names of the states pairwise distinct,
    whether it succeeds or fails. *)
Theorem add_state_names_unique (s : string) (w w' : World) (r : Result State) :
  NoDup (name <$> states (self w)) ->
  add_state s w = (r, w') ->
  NoDup (name <$> states (self w')).
Proof.
  intros Hnd H. apply add_state_inv in H. destruct r as [state | e].
  - destruct H as (Hname & _ & Hnew & _ & Hself & _).
    rewrite Hself. cbn [states]. rewrite fmap_app. apply NoDup_app.
    split; [exact Hnd |]. split; [| apply NoDup_singleton].
    intros n Hin Hin2. cbn in Hin2. apply list_elem_of_singleton in Hin2.
    apply list_elem_of_fmap in Hin as (s0 & -> & Hs0).
    rewrite has_state_false in Hnew. apply (Hnew s0 Hs0). congruence.
  - now subst w'.
Qed.

Lemma add_state_names_unique_witness :
  NoDup (name <$> states (self (snd (add_state "q2" one_state_world)))).
Proof.
  apply (add_state_names_unique "q2" one_state_world _
           (fst (add_state "q2" one_state_world))).
  - cbn. apply NoDup_singleton.
  - lazy. reflexivity.
Defined.

(** X3: marking a State object of the store final or not final is read back
    by [is_final], changes the flag of no other object and leaves the
    automaton alone; marking a state of the automaton final makes
    [has_final_state] true. *)
Theorem set_is_final_read_back (state : State) (b : bool) (w : World) :
  oid state < length (finals w) ->
  exists w',
    set_is_final state b w = (Return tt, w')
    /\ is_final w' state = b
    /\ (forall other, oid other <> oid state ->
          is_final w' other = is_final w other)
    /\ self w' = self w
    /\ (b = true -> state ∈ states (self w) -> has_final_state w' = true).
Proof.
  intros Hlt. eexists. split; [reflexivity |].
  unfold is_final. cbn [finals with_finals self].
  split; [now rewrite list_lookup_insert_eq |].
  split; [intros other Hne; now rewrite list_lookup_insert_ne by congruence |].
  split; [reflexivity |].
  intros -> Hin. apply has_final_state_true. exists state.
  split; [exact Hin |]. unfold is_final. cbn [finals with_finals].
  now rewrite list_lookup_insert_eq.
Qed.

Lemma set_is_final_read_back_witness :
  exists w',
    set_is_final q_state true one_state_world = (Return tt, w')
    /\ is_final w' q_state = true
    /\ (forall other, oid other <> oid q_state ->
          is_final w' other = is_final one_state_world other)
    /\ self w' = self one_state_world
    /\ (true = true -> q_state ∈ states (self one_state_world) ->
        has_final_state w' = true).
Proof.
  apply (set_is_final_read_back q_state true one_state_world). cbn. lia.
Defined.

(** ** Transitions: adding and looking up *)

Lemma Transition_init_when (o : State) (t : option State) (c : option string) :
  c <> Some "" -> when (Transition_init o t c) = c.
Proof.
  intros Hc. unfold Transition_init. cbn [when].
  destruct c as [s |]; [| reflexivity].
  destruct (String.eqb s "") eqn:E; [| reflexivity].
  apply String.eqb_eq in E. subst. contradiction.
Qed.

Lemma Transition_init_normalized (o : State) (t : option State)
    (c : option string) :
  when (Transition_init o t c) <> Some "".
Proof.
  unfold Transition_init. cbn [when]. destruct c as [s |]; [| discriminate].
  destruct (String.eqb s "") eqn:E; [discriminate |].
  apply String.eqb_neq in E. congruence.
Qed.

Lemma has_transition_get_transition (a : Automaton) (o : State)
    (c : option string) :
  has_transition a o c = false -> get_transition a o c = None.
Proof. unfold has_transition. now destruct (get_transition a o c). Qed.

(** X4: after a successful [add_transition origin target when] whose
    condition is not the empty text, [get_transition origin when] returns
    the transition that was added, and the look-up of every other
    (origin, condition) pair is what it was before. *)
Theorem add_transition_get_transition (o : State) (t : option State)
    (c : option string) (w w' : World) (tr : Transition) :
  c <> Some "" ->
  add_transition o t c w = (Return tr, w') ->
  get_transition (self w') o c = Some tr
  /\ forall o' c', oid o' <> oid o \/ c' <> c ->
       get_transition (self w') o' c' = get_transition (self w) o' c'.
Proof.
  intros Hc H. apply add_transition_inv in H as (-> & Hnew & ->).
  unfold get_transition.
  cbn [append_transition with_self self transitions]. split.
  - rewrite find_app_first.
    apply has_transition_get_transition in Hnew. unfold get_transition in Hnew.
    rewrite Hnew. cbn [List.find].
    rewrite (Transition_init_when o t c Hc).
    unfold State_eqb, Transition_init. cbn [origin].
    rewrite Nat.eqb_refl.
    replace (when_eqb c c) with true
      by (symmetry; now apply when_eqb_eq).
    reflexivity.
  - intros o' c' Hother. rewrite find_app_first.
    destruct (List.find _ (transitions (self w))); [reflexivity |].
    cbn [List.find]. rewrite (Transition_init_when o t c Hc).
    unfold State_eqb, Transition_init. cbn [origin].
    destruct (Nat.eqb (oid o) (oid o')) eqn:Eo; [| reflexivity].
    destruct (when_eqb c c') eqn:Ec; [| reflexivity].
    apply Nat.eqb_eq in Eo. apply when_eqb_eq in Ec.
    destruct Hother; congruence.
Qed.

Lemma add_transition_get_transition_witness :
  exists tr w',
    add_transition q_state None (Some "a") one_state_world = (Return tr, w')
    /\ get_transition (self w') q_state (Some "a") = Some tr
    /\ forall o' c', oid o' <> oid q_state \/ c' <> Some "a" ->
         get_transition (self w') o' c'
         = get_transition (self one_state_world) o' c'.
Proof.
  eexists _, _. split; [lazy; reflexivity |].
  apply (add_transition_get_transition q_state None (Some "a")
           one_state_world).
  - discriminate.
  - lazy. reflexivity.
Defined.

(** X5: the duplicate test of [add_transition] never fires for the empty
    text: when the stored conditions are normalized and the states are
    known, [add_transition origin target ""] succeeds and appends a
    transition with the empty condition [None], even when a transition of
    the same origin with the empty condition is already there; the stored
    conditions stay normalized. *)
Theorem add_transition_empty_text (o : State) (t : option State) (w : World) :
  conditions_normalized (self w) ->
  state_known (self w) o ->
  (forall s, t = Some s -> state_known (self w) s) ->
  exists tr w',
    add_transition o t (Some "") w = (Return tr, w')
    /\ when tr = None
    /\ transitions (self w') = transitions (self w) ++ [tr]
    /\ conditions_normalized (self w').
Proof.
  intros Hnorm Ho Ht.
  exists (Transition_init o t (Some "")),
    (append_transition (Transition_init o t (Some "")) w).
  split; [| split; [reflexivity | split; [reflexivity |]]].
  - apply add_transition_new.
    + apply has_transition_false. intros t0 Hin _. now apply Hnorm.
    + now apply has_state_true.
    + intros s Hs. apply has_state_true. now apply Ht.
  - intros t0 Hin. cbn in Hin. apply elem_of_app in Hin as [Hin | Hin].
    + now apply Hnorm.
    + apply list_elem_of_singleton in Hin. subst t0.
      apply Transition_init_normalized.
Qed.

Lemma add_transition_empty_text_witness :
  exists tr w',
    add_transition q_state None (Some "")
      (append_transition (Transition_init q_state None None) one_state_world)
    = (Return tr, w')
    /\ when tr = None
    /\ transitions (self w')
       = [Transition_init q_state None None] ++ [tr]
    /\ conditions_normalized (self w').
Proof.
  apply (add_transition_empty_text q_state None
           (append_transition (Transition_init q_state None None)
              one_state_world)).
  - intros t0 Hin. cbn in Hin. apply list_elem_of_singleton in Hin. subst t0.
    discriminate.
  - exists q_state. split; [| reflexivity]. cbn.
    apply list_elem_of_singleton. reflexivity.
  - discriminate.
Defined.

(** X6: for a condition other than the empty text, [add_transition] keeps
    the (origin, condition) pairs of the transitions pairwise distinct,
    whether it succeeds or fails. *)
Theorem add_transition_keys_unique (o : State) (t : option State)
    (c : option string) (w w' : World) (r : Result Transition) :
  c <> Some "" ->
  NoDup (transition_key <$> transitions (self w)) ->
  add_transition o t c w = (r, w') ->
  NoDup (transition_key <$> transitions (self w')).
Proof.
  intros Hc Hnd H. apply add_transition_inv in H.
  destruct r as [tr | e]; [| now subst w'].
  destruct H as (-> & Hnew & ->).
  cbn [append_transition with_self self transitions].
  rewrite fmap_app. apply NoDup_app.
  split; [exact Hnd |]. split; [| apply NoDup_singleton].
  intros key Hin Hin2. cbn in Hin2. apply list_elem_of_singleton in Hin2.
  apply list_elem_of_fmap in Hin as (t0 & -> & Ht0).
  rewrite has_transition_false in Hnew.
  assert (Hkey : transition_key (Transition_init o t c) = (oid o, c)).
  { unfold transition_key. now rewrite (Transition_init_when o t c Hc). }
  rewrite Hkey in Hin2. unfold transition_key in Hin2.
  injection Hin2 as Ho Hw.
  now apply (Hnew t0 Ht0).
Qed.

Lemma add_transition_keys_unique_witness :
  NoDup (transition_key
           <$> transitions
                 (self (snd (add_transition q_state None (Some "a")
                               one_state_world)))).
Proof.
  apply (add_transition_keys_unique q_state None (Some "a") one_state_world _
           (fst (add_transition q_state None (Some "a") one_state_world))).
  - discriminate.
  - cbn. apply NoDup_nil_2.
  - lazy. reflexivity.
Defined.

(** ** [build_jff]: what it writes and what it leaves alone *)

Lemma index_of_Some (x : State) (l : list State) (i : nat) :
  index_of x l = Some i ->
  (exists y, l !! i = Some y /\ oid y = oid x)
  /\ forall j z, j < i -> l !! j = Some z -> oid z <> oid x.
Proof.
  revert i. induction l as [| y l IH]; intros i; cbn [index_of];
    [discriminate |].
  unfold State_eqb. destruct (Nat.eqb (oid y) (oid x)) eqn:E.
  - intros [= <-]. apply Nat.eqb_eq in E. split; [now exists y |].
    intros j z Hj. lia.
  - destruct (index_of x l) as [k |]; [| discriminate].
    cbn. intros [= <-]. destruct (IH k eq_refl) as [(z & Hz & Ho) Hfirst].
    apply Nat.eqb_neq in E. split; [now exists z |].
    intros j z' Hj Hz'. destruct j as [| j]; cbn in Hz'.
    + now injection Hz' as <-.
    + apply (Hfirst j z'); [lia | exact Hz'].
Qed.

Lemma index_of_element (x : State) (a : Automaton) :
  is_element x a -> exists i, index_of x (states a) = Some i.
Proof.
  intros (s & Hin & Ho). induction (states a) as [| y l IH];
    [inversion Hin |].
  cbn [index_of]. unfold State_eqb.
  destruct (Nat.eqb (oid y) (oid x)) eqn:E; [now exists 0 |].
  apply elem_of_cons in Hin as [-> | Hin].
  - apply Nat.eqb_neq in E. contradiction.
  - destruct (IH Hin) as [i Hi]. rewrite Hi. now exists (S i).
Qed.

(** The transition elements of a written document. *)
Lemma jff_transition_list_inv (l : list Transition) (w w' : World)
    (es : list JffTransition) :
  jff_transition_list l w = (Return es, w') ->
  Forall2
    (fun t e =>
       index_of (origin t) (states (self w)) = Some (jff_from e)
       /\ index_of (target t) (states (self w)) = Some (jff_to e)
       /\ jff_read e = when t)
    l es.
Proof.
  revert es w'. induction l as [| t l IH]; intros es w' H.
  - injection H as <- _. constructor.
  - cbn [jff_transition_list] in H. unfold jff_transition in H.
    unfold mbind, M_bind, gets, raise, mret, M_ret in H.
    cbv beta iota in H.
    destruct (index_of (origin t) (states (self w))) as [from |] eqn:Hf;
      [| discriminate].
    destruct (index_of (target t) (states (self w))) as [to |] eqn:Ht;
      [| discriminate].
    destruct (jff_transition_list l w) as [[es' | e] w1] eqn:Hl;
      [| discriminate].
    injection H as <- _. constructor; [now repeat split |].
    now apply (IH es' w1).
Qed.

Lemma jff_transition_list_ok (l : list Transition) (w : World) :
  (forall t, t ∈ l ->
     is_element (origin t) (self w) /\ is_element (target t) (self w)) ->
  exists es, jff_transition_list l w = (Return es, w).
Proof.
  induction l as [| t l IH]; intros Hall; [now exists [] |].
  cbn [jff_transition_list]. unfold jff_transition.
  unfold mbind, M_bind, gets, raise, mret, M_ret. cbv beta iota.
  destruct (Hall t) as [Ho Ht]; [apply elem_of_cons; now left |].
  destruct (index_of_element _ _ Ho) as [from ->].
  destruct (index_of_element _ _ Ht) as [to ->].
  destruct IH as [es ->]; [intros t' Hin; apply Hall, elem_of_cons; now right |].
  eauto.
Qed.

(** Every outcome of [build_jff], read off its code. *)
Lemma build_jff_outcome
    (abspath : string -> string) (join : string -> string -> string)
    (split : string -> string * string)
    (filename : string) (dirname : option string)
    (drawing_radius_factor drawing_margin : R) (w w' : World)
    (r : Result string) :
  build_jff abspath join split filename dirname drawing_radius_factor
    drawing_margin w = (r, w') ->
  match r with
  | Raise e =>
      w' = w
      /\ (export_error e
          \/ (e = ValueError
              /\ exists es e',
                   jff_transition_list (transitions (self w)) w
                   = (Raise e', es)))
  | Return path =>
      isfile w path = false /\ isdir w path = false
      /\ has_initial_state (self w) = true /\ has_final_state w = true
      /\ exists es,
           jff_transition_list (transitions (self w)) w = (Return es, w)
           /\ w' = with_disk
                     (mkFileSystem (directories (disk w))
                        ((path,
                          mkJff ("Created with AutoFLAP " +:+ __version__)
                            (imap (jff_state w drawing_radius_factor
                                     drawing_margin)
                               (states (self w)))
                            es)
                           :: List.filter
                                (fun f => negb (String.eqb path (fst f)))
                                (files (disk w))))
                     w
  end.
Proof.
  unfold build_jff, mbind, M_bind, gets, raise, mret, M_ret.
  cbv beta iota. unfold export_error.
  destruct (has_initial_state (self w)); cbn [negb];
    [| intros [= <- <-]; auto].
  destruct (has_final_state w); cbn [negb]; [| intros [= <- <-]; auto].
  match goal with
  | |- context [split ?p] => destruct (split p) as [dir file]
  end.
  destruct (isdir w dir); cbn [negb]; [| intros [= <- <-]; eauto 10].
  match goal with
  | |- context [isfile w ?p] => generalize p; intros output
  end.
  destruct (isfile w output) eqn:Hfile; [intros [= <- <-]; eauto 10 |].
  destruct (jff_transition_list (transitions (self w)) w) as [[es | e] w1] eqn:Hl;
    pose proof (jff_transition_list_world _ _ _ _ Hl) as ->.
  - unfold write_file, mbind, M_bind, gets, raise, modify. cbv beta iota.
    destruct (isdir w output) eqn:Hdir; intros [= <- <-]; [eauto 10 |].
    repeat split; eauto.
  - intros [= <- <-]. split; [reflexivity |]. right.
    assert (e = ValueError) as ->; [| eauto].
    clear -Hl. revert e Hl.
    induction (transitions (self w)) as [| t l IH]; intros e Hl;
      [discriminate |].
    cbn [jff_transition_list] in Hl. unfold jff_transition in Hl.
    unfold mbind, M_bind, gets, raise, mret, M_ret in Hl.
    cbv beta iota in Hl.
    destruct (index_of (origin t) (states (self w)));
      [| now injection Hl as <-].
    destruct (index_of (target t) (states (self w)));
      [| now injection Hl as <-].
    destruct (jff_transition_list l w) as [[es | e0] w1];
      [discriminate |].
    injection Hl as He Hw. subst e0 w1. now apply IH.
Qed.

(** X7: a failing [build_jff] changes nothing: the automaton, the State
    objects and the file system are as before the call, so no partly
    written file is left. *)
Theorem build_jff_failure_frame
    (abspath : string -> string) (join : string -> string -> string)
    (split : string -> string * string)
    (filename : string) (dirname : option string)
    (drawing_radius_factor drawing_margin : R) (w w' : World) (e : Error) :
  build_jff abspath join split filename dirname drawing_radius_factor
    drawing_margin w = (Raise e, w') ->
  w' = w.
Proof. intros H. now apply build_jff_outcome in H as [-> _]. Qed.

Lemma build_jff_failure_frame_witness :
  exists w',
    build_jff plain_abspath plain_join plain_split "out" None 25 100
      one_state_world = (Raise NoInitialStateError, w')
    /\ w' = one_state_world.
Proof.
  eexists. split; [lazy; reflexivity |].
  apply (build_jff_failure_frame plain_abspath plain_join plain_split "out"
           None 25 100 one_state_world _ NoInitialStateError).
  lazy. reflexivity.
Defined.

(** X8: a successful [build_jff] returns a path at which no file (and no
    directory) existed; it leaves the automaton, the State objects, the
    directories and every other file as they were, and adds exactly the
    returned file. *)
Theorem build_jff_never_overwrites
    (abspath : string -> string) (join : string -> string -> string)
    (split : string -> string * string)
    (filename : string) (dirname : option string)
    (drawing_radius_factor drawing_margin : R) (w w' : World) (path : string) :
  build_jff abspath join split filename dirname drawing_radius_factor
    drawing_margin w = (Return path, w') ->
  isfile w path = false /\ isdir w path = false
  /\ self w' = self w /\ finals w' = finals w
  /\ directories (disk w') = directories (disk w)
  /\ exists jff, files (disk w') = (path, jff) :: files (disk w).
Proof.
  intros H. apply build_jff_outcome in H
    as (Hfile & Hdir & _ & _ & es & _ & ->).
  do 5 (split; [assumption || reflexivity |]).
  eexists. cbn [with_disk disk files]. f_equal.
  unfold isfile in Hfile. clear -Hfile.
  induction (files (disk w)) as [| f l IH]; [reflexivity |].
  cbn in Hfile |- *. apply orb_false_iff in Hfile as [Hf Hl].
  rewrite Hf. cbn. f_equal. now apply IH.
Qed.

Lemma build_jff_never_overwrites_witness :
  exists w',
    build_jff plain_abspath plain_join plain_split "out" None 25 100
      four_states_world = (Return "out.jff", w')
    /\ isfile four_states_world "out.jff" = false
    /\ isdir four_states_world "out.jff" = false
    /\ self w' = self four_states_world
    /\ finals w' = finals four_states_world
    /\ directories (disk w') = directories (disk four_states_world)
    /\ exists jff,
         files (disk w') = ("out.jff", jff) :: files (disk four_states_world).
Proof.
  pose proof build_jff_four_states as Hfst.
  destruct (build_jff plain_abspath plain_join plain_split "out" None 25 100
              four_states_world) as [r w'] eqn:Hrun.
  cbn [fst] in Hfst. subst r. exists w'. split; [reflexivity |].
  exact (build_jff_never_overwrites _ _ _ _ _ _ _ _ _ _ Hrun).
Defined.



(** X10: when the automaton satisfies the structural invariant, a failing
    [build_jff] fails with one of its own errors (no initial state, no
    final state, not a directory, file exists, is a directory): the
    ValueError of [list.index] cannot arise. *)
Theorem build_jff_errors
    (abspath : string -> string) (join : string -> string -> string)
    (split : string -> string * string)
    (filename : string) (dirname : option string)
    (drawing_radius_factor drawing_margin : R) (w w' : World) (e : Error) :
  structural_invariant (self w) ->
  build_jff abspath join split filename dirname drawing_radius_factor
    drawing_margin w = (Raise e, w') ->
  export_error e.
Proof.
  intros [Hinv _] H.
  apply build_jff_outcome in H as [_ [H | (_ & es & e' & H)]]; [exact H |].
  destruct (jff_transition_list_ok (transitions (self w)) w Hinv) as [es' Hok].
  rewrite Hok in H. discriminate.
Qed.

Lemma build_jff_errors_witness : export_error NoInitialStateError.
Proof.
  apply (build_jff_errors plain_abspath plain_join plain_split "out" None
           25 100 one_state_world one_state_world).
  - split.
    + intros t H. cbn in H. inversion H.
    + discriminate.
  - lazy. reflexivity.
Defined.

(** ** [build_jff]: the one-decimal text *)

(** X12: the one-decimal text written for a coordinate is within half a
    tenth of the coordinate. *)
Theorem format_1f_accuracy (x : R) :
  (Rabs (IZR (format_1f x) / 10 - x) <= / 20)%R.
Proof.
  unfold format_1f. cbv zeta.
  destruct (archimed (10 * x)) as [Hgt Hle].
  assert (Hlo : IZR (up (10 * x) - 1) = (IZR (up (10 * x)) - 1)%R)
    by (rewrite minus_IZR; reflexivity).
  assert (Hhi : IZR (up (10 * x) - 1 + 1) = IZR (up (10 * x)))
    by (f_equal; lia).
  apply Rabs_le.
  destruct (Rlt_dec _ _) as [H1 | H1].
  - rewrite Hlo in *. lra.
  - destruct (Rlt_dec _ _) as [H2 | H2].
    + rewrite Hhi. rewrite Hlo in *. lra.
    + rewrite Hlo in H1, H2. destruct (Z.even _).
      * rewrite Hlo. lra.
      * rewrite Hhi. lra.
Qed.

(** ** [parse_csv]: what a successful import has built *)

Lemma add_state_empty_name (w w' : World) (state : State) :
  add_state "" w <> (Return state, w').
Proof.
  unfold add_state, State_init. step.
  destruct (has_state (self w) ""); discriminate.
Qed.

Lemma insert_last_flag (f : list bool) (b : bool) :
  <[length f := b]> (f ++ [false]) = f ++ [b].
Proof.
  rewrite insert_app_r_alt by lia. now rewrite Nat.sub_diag.
Qed.

Section FirstPassEffect.

Variables (initial_state_symbol final_state_symbol : string).
Variables (states_col_index state_symbols_col_index : Z).

Hypothesis states_col_nonneg : (0 <= states_col_index)%Z.
Hypothesis state_symbols_col_nonneg : (0 <= state_symbols_col_index)%Z.
Hypothesis cols_distinct : states_col_index <> state_symbols_col_index.

Local Abbreviation state_row :=
  (parse_state_row initial_state_symbol final_state_symbol states_col_index
     state_symbols_col_index).
Local Abbreviation is_initial_row row :=
  (contains initial_state_symbol (marker_cell state_symbols_col_index row)).
Local Abbreviation is_final_row row :=
  (contains final_state_symbol (marker_cell state_symbols_col_index row)).

Lemma mark_state_inv (state : State) (state_type : string) (w w' : World) :
  mark_state initial_state_symbol final_state_symbol state state_type w
  = (Return tt, w') ->
  (contains initial_state_symbol state_type = true ->
   initial_state (self w) = None)
  /\ finals w'
     = (if contains final_state_symbol state_type
        then <[oid state := true]> (finals w) else finals w)
  /\ initial_state (self w')
     = (if contains initial_state_symbol state_type then Some state
        else initial_state (self w))
  /\ states (self w') = states (self w)
  /\ transitions (self w') = transitions (self w)
  /\ disk w' = disk w.
Proof.
  unfold mark_state, set_initial_state, set_is_final.
  unfold mbind, M_bind, gets, modify, raise, mret, M_ret. cbv beta iota.
  destruct (contains initial_state_symbol state_type).
  - destruct (initial_state (self w)); [discriminate |].
    destruct (has_state (self w) (name state)); [| discriminate].
    destruct (contains final_state_symbol state_type);
      intros [= <-]; cbn; auto 10.
  - destruct (contains final_state_symbol state_type);
      intros [= <-]; cbn; repeat split; discriminate.
Qed.

(** All that the first loop does for one accepted row. *)
Lemma parse_state_row_effect (row : Row) (w w' : World) :
  state_row row w = (Return tt, w') ->
  let state :=
    mkState (length (finals w)) (name_cell states_col_index row) in
  (states_col_index < Z.of_nat (length row))%Z
  /\ (state_symbols_col_index < Z.of_nat (length row))%Z
  /\ name_cell states_col_index row <> ""
  /\ has_state (self w) (name_cell states_col_index row) = false
  /\ (is_initial_row row = true -> initial_state (self w) = None)
  /\ finals w' = finals w ++ [is_final_row row]
  /\ states (self w') = states (self w) ++ [state]
  /\ initial_state (self w')
     = (if is_initial_row row then Some state else initial_state (self w))
  /\ transitions (self w') = transitions (self w)
  /\ disk w' = disk w.
Proof.
  intros H state.
  pose proof (parse_state_row_inv _ _ _ _ states_col_nonneg
                state_symbols_col_nonneg cols_distinct _ _ _ H)
    as (Hs & Hm & _).
  destruct (lookup_lt_is_Some_2 row (Z.to_nat states_col_index)) as [cell Hc];
    [lia |].
  destruct (lookup_lt_is_Some_2 row (Z.to_nat state_symbols_col_index))
    as [ty Ht]; [lia |].
  rewrite (parse_state_row_in_range _ _ _ _ row cell ty) in H;
    try assumption; try lia.
  unfold mbind, M_bind in H.
  destruct (add_state cell w) as [[st | e] wb] eqn:Ha; [| discriminate].
  assert (Hne : cell <> "").
  { intros ->. now apply add_state_empty_name in Ha. }
  apply add_state_inv in Ha as (Hname & Hoid & Hnew & Hfin & Hself & Hdisk).
  apply mark_state_inv in H as (Hinit & Hfin' & Hinit' & Hst' & Htr' & Hdisk').
  assert (Hn : name_cell states_col_index row = cell)
    by (unfold name_cell; now rewrite Hc).
  assert (Hmk : marker_cell state_symbols_col_index row = ty)
    by (unfold marker_cell; now rewrite Ht).
  assert (Hstate : st = state).
  { subst state. rewrite Hn.
    destruct st as [o n]. cbn in Hname, Hoid. now subst. }
  rewrite Hn, Hmk.
  rewrite Hself in *. cbn [initial_state states transitions] in *.
  split; [exact Hs |]. split; [exact Hm |]. split; [exact Hne |].
  split; [exact Hnew |]. split; [exact Hinit |]. split; [| split; [| split]].
  - rewrite Hfin', Hfin, Hoid. unfold fresh_oid.
    destruct (contains final_state_symbol ty); [| reflexivity].
    apply insert_last_flag.
  - rewrite Hst'. now rewrite Hstate.
  - rewrite Hinit'. now rewrite Hstate.
  - split; [exact Htr' | congruence].
Qed.

(** All that an accepted first pass does. *)
Lemma first_pass_effect (rows : list Row) (w w' : World) :
  for_each rows state_row w = (Return tt, w') ->
  finals w' = finals w ++ ((fun row => is_final_row row) <$> rows)
  /\ states (self w')
     = states (self w) ++ row_states (length (finals w)) states_col_index rows
  /\ transitions (self w') = transitions (self w)
  /\ disk w' = disk w
  /\ Forall (fun row =>
               (states_col_index < Z.of_nat (length row))%Z
               /\ (state_symbols_col_index < Z.of_nat (length row))%Z
               /\ name_cell states_col_index row <> "")
       rows
  /\ NoDup (name_cell states_col_index <$> rows)
  /\ (forall row, row ∈ rows ->
        has_state (self w) (name_cell states_col_index row) = false)
  /\ (forall k row, rows !! k = Some row -> is_initial_row row = true ->
        initial_state (self w) = None
        /\ initial_state (self w')
           = Some (mkState (length (finals w) + k)
                     (name_cell states_col_index row)))
  /\ ((forall row, row ∈ rows -> is_initial_row row = false) ->
      initial_state (self w') = initial_state (self w)).
Proof.
  revert w. induction rows as [| row rows IH]; intros w; cbn [for_each].
  - intros [= <-]. unfold row_states. cbn. rewrite !app_nil_r.
    repeat split; try constructor; try discriminate.
    intros row H. inversion H.
  - unfold mbind, M_bind.
    destruct (state_row row w) as [[[] | e] w1] eqn:Hrow; [| discriminate].
    apply parse_state_row_effect in Hrow
      as (Hs & Hm & Hne & Hnew & Hinit & Hfin & Hst & Hinit1 & Htr & Hdisk).
    cbv zeta in Hst, Hinit1.
    intros H. apply IH in H
      as (Hfin' & Hst' & Htr' & Hdisk' & Hall & Hnd & Hfresh & Hmarked & Hnone).
    assert (Hlen : length (finals w1) = S (length (finals w)))
      by (rewrite Hfin, length_app; cbn; lia).
    assert (Hrest : row_states (length (finals w1)) states_col_index rows
                    = imap ((fun k r =>
                               mkState (length (finals w) + k)
                                 (name_cell states_col_index r)) ∘ S) rows).
    { unfold row_states. apply imap_ext. intros k r _. cbn. f_equal. lia. }
    (* names of the later rows differ from this row's name *)
    assert (Hother : forall r, r ∈ rows ->
              name_cell states_col_index r <> name_cell states_col_index row).
    { intros r Hr Heq. specialize (Hfresh r Hr).
      rewrite has_state_false in Hfresh.
      apply (Hfresh (mkState (length (finals w))
                       (name_cell states_col_index row))); [| now symmetry].
      rewrite Hst. apply elem_of_app. right.
      apply list_elem_of_singleton. reflexivity. }
    split; [rewrite Hfin', Hfin, fmap_cons, <- app_assoc; reflexivity |].
    split.
    { rewrite Hst', Hst, Hrest, <- app_assoc. unfold row_states.
      rewrite imap_cons. cbn [app]. now rewrite Nat.add_0_r. }
    split; [congruence |]. split; [congruence |].
    split; [constructor; auto |].
    split.
    { rewrite fmap_cons. constructor; [| exact Hnd].
      intros Hin. apply list_elem_of_fmap in Hin as (r & Heq & Hr).
      now apply (Hother r Hr). }
    split.
    { intros r Hr. apply elem_of_cons in Hr as [-> | Hr]; [exact Hnew |].
      specialize (Hfresh r Hr). rewrite has_state_false in Hfresh |- *.
      intros s0 Hs0. apply Hfresh. rewrite Hst. apply elem_of_app. now left. }
    split.
    + intros k r Hk Hmark. destruct k as [| k]; cbn in Hk.
      * injection Hk as ->. rewrite Hmark in Hinit1.
        split; [now apply Hinit |].
        rewrite Nat.add_0_r, <- Hinit1. apply Hnone.
        intros r' Hr. destruct (is_initial_row r') eqn:Er; [| reflexivity].
        apply list_elem_of_lookup in Hr as [k Hk].
        destruct (Hmarked k r' Hk Er) as [Hnone1 _]. congruence.
      * destruct (Hmarked k r Hk Hmark) as [Hnone1 Hinit2].
        assert (Hnot : is_initial_row row = false).
        { destruct (is_initial_row row); [congruence | reflexivity]. }
        rewrite Hnot in Hinit1. split; [congruence |].
        rewrite Hinit2, Hlen. do 2 f_equal. lia.
    + intros Hno. rewrite Hnone.
      * rewrite Hinit1, (Hno row); [reflexivity | apply elem_of_cons; now left].
      * intros r' Hr. apply Hno, elem_of_cons. now right.
Qed.

End FirstPassEffect.

Lemma stored_condition_when (ess label : string) (o : State) (t : option State) :
  when (Transition_init o t (when_of_label ess label))
  = stored_condition ess label.
Proof.
  unfold when_of_label, stored_condition, Transition_init. cbn [when].
  destruct (String.eqb label ess); cbn [negb]; [reflexivity |].
  now destruct (String.eqb label "").
Qed.

Section SecondPassEffect.

Variables (no_transition_symbol empty_string_symbol : string).
Variables (states_col_index state_symbols_col_index : Z).

Hypothesis states_col_nonneg : (0 <= states_col_index)%Z.
Hypothesis state_symbols_col_nonneg : (0 <= state_symbols_col_index)%Z.
Hypothesis cols_distinct : states_col_index <> state_symbols_col_index.

Local Abbreviation cell_body :=
  (parse_cell no_transition_symbol empty_string_symbol).
Local Abbreviation indices :=
  (rev (sorted [states_col_index; state_symbols_col_index])).
Local Abbreviation removed :=
  [Z.to_nat states_col_index; Z.to_nat state_symbols_col_index].
Local Abbreviation asked origin_name :=
  (cell_transition no_transition_symbol empty_string_symbol origin_name).
Local Abbreviation resolved w cell :=
  (snd cell <> no_transition_symbol -> has_state (self w) (snd cell) = true).

(** From [w] to [w'] only transitions were appended: [ts]. *)
Local Abbreviation appended w w' ts :=
  (finals w' = finals w /\ disk w' = disk w
   /\ states (self w') = states (self w)
   /\ initial_state (self w') = initial_state (self w)
   /\ transitions (self w') = transitions (self w) ++ ts).

Lemma parse_cell_effect (state : State) (cell : string * string)
    (w w' : World) :
  cell_body state cell w = (Return tt, w') ->
  exists ts,
    appended w w' ts
    /\ map transition_names ts = asked (name state) cell
    /\ resolved w cell
    /\ Forall (fun t => origin t = state /\ target t ∈ states (self w)) ts.
Proof.
  unfold parse_cell, cell_transition. destruct cell as [label v]. cbn [fst snd].
  destruct (String.eqb v no_transition_symbol) eqn:Hv.
  - intros [= <-]. exists []. rewrite app_nil_r. repeat split.
    + apply String.eqb_eq in Hv. contradiction.
    + constructor.
  - unfold mbind, M_bind, gets, raise, mret, M_ret. cbv beta iota.
    destruct (get_state (self w) v) as [t |] eqn:Hget; [| discriminate].
    fold (when_of_label empty_string_symbol label).
    destruct (add_transition state (Some t) _ w) as [[tr | e] w1] eqn:Ha;
      [| discriminate].
    apply add_transition_inv in Ha as (-> & _ & ->). intros [= <-].
    assert (Ht : t ∈ states (self w) /\ name t = v).
    { unfold get_state in Hget. apply find_some in Hget as [Hin Heq].
      split; [now apply list_elem_of_In | now apply String.eqb_eq in Heq]. }
    destruct Ht as [Hin Hname].
    eexists [_]. split; [cbn; auto 10 |]. split; [| split].
    + cbn [map]. unfold transition_names.
      rewrite stored_condition_when. cbn [Transition_init origin target].
      now rewrite Hname.
    + intros _. unfold has_state. now rewrite Hget.
    + constructor; [| constructor]. cbn [Transition_init origin target].
      now split.
Qed.

Lemma cells_effect (state : State) (l : list (string * string))
    (w w' : World) :
  for_each l (cell_body state) w = (Return tt, w') ->
  exists ts,
    appended w w' ts
    /\ map transition_names ts = flat_map (asked (name state)) l
    /\ Forall (fun cell => resolved w cell) l
    /\ Forall (fun t => origin t = state /\ target t ∈ states (self w)) ts.
Proof.
  revert w. induction l as [| c l IH]; intros w; cbn [for_each].
  - intros [= <-]. exists []. rewrite app_nil_r. repeat split; constructor.
  - unfold mbind, M_bind.
    destruct (cell_body state c w) as [[[] | e] w1] eqn:Hc; [| discriminate].
    apply parse_cell_effect in Hc
      as (t1 & (Hf1 & Hd1 & Hs1 & Hi1 & Ht1) & Hn1 & Hr1 & Hm1).
    intros H. apply IH in H
      as (t2 & (Hf2 & Hd2 & Hs2 & Hi2 & Ht2) & Hn2 & Hr2 & Hm2).
    exists (t1 ++ t2). split; [| split; [| split]].
    + repeat split; try congruence. now rewrite Ht2, Ht1, app_assoc.
    + cbn [flat_map]. now rewrite map_app, Hn1, Hn2.
    + constructor; [exact Hr1 |].
      eapply Forall_impl; [exact Hr2 |]. intros c' Hc' Hv.
      specialize (Hc' Hv). unfold has_state, get_state in *.
      now rewrite Hs1 in Hc'.
    + apply Forall_app. split; [exact Hm1 |]. now rewrite Hs1 in Hm2.
Qed.

Lemma transition_rows_effect (header : Row) (states' : list State)
    (rows : list Row) (w w' : World) :
  Forall2 (fun state row => name state = name_cell states_col_index row)
    states' rows ->
  (forall state, state ∈ states' -> state ∈ states (self w)) ->
  parse_transition_rows no_transition_symbol empty_string_symbol
    (without_columns removed header) indices states' rows w
  = (Return tt, w') ->
  exists ts,
    appended w w' ts
    /\ map transition_names ts
       = table_transitions no_transition_symbol empty_string_symbol
           states_col_index state_symbols_col_index header rows
    /\ Forall
         (fun row =>
            Forall (fun cell => resolved w cell)
              (row_cells states_col_index state_symbols_col_index header row))
         rows
    /\ Forall (fun t => origin t ∈ states (self w)
                        /\ target t ∈ states (self w)) ts.
Proof.
  intros Hall. revert w. induction Hall as [| state row states' rows Hn _ IH];
    intros w Hsub; cbn [parse_transition_rows].
  - intros [= <-]. exists []. rewrite app_nil_r. repeat split; constructor.
  - unfold mbind, M_bind.
    destruct (pop_each row indices w) as [[r | e] w1] eqn:Hp; [| discriminate].
    apply pop_each_pair_inv in Hp as (_ & _ & -> & ->); try assumption.
    destruct (for_each _ (cell_body state) w) as [[[] | e] w2] eqn:Hcells;
      [| discriminate].
    apply cells_effect in Hcells
      as (t1 & (Hf1 & Hd1 & Hs1 & Hi1 & Ht1) & Hn1 & Hr1 & Hm1).
    intros H. apply IH in H
      as (t2 & (Hf2 & Hd2 & Hs2 & Hi2 & Ht2) & Hn2 & Hr2 & Hm2).
    2:{ intros st Hst. rewrite Hs1. apply Hsub. now apply elem_of_cons; right. }
    exists (t1 ++ t2). split; [| split; [| split]].
    + repeat split; try congruence. now rewrite Ht2, Ht1, app_assoc.
    + unfold table_transitions. cbn [flat_map].
      rewrite map_app, Hn1, Hn2, Hn. reflexivity.
    + constructor; [exact Hr1 |].
      eapply Forall_impl; [exact Hr2 |]. intros row' Hrow'.
      eapply Forall_impl; [exact Hrow' |]. intros c' Hc' Hv.
      specialize (Hc' Hv). unfold has_state, get_state in *.
      now rewrite Hs1 in Hc'.
    + apply Forall_app. split.
      * eapply Forall_impl; [exact Hm1 |]. intros t [-> Ht]. split; [| exact Ht].
        apply Hsub. apply elem_of_cons. now left.
      * now rewrite Hs1 in Hm2.
Qed.

End SecondPassEffect.

Lemma row_states_names (base : nat) (s : Z) (rows : list Row) :
  Forall2 (fun state row => name state = name_cell s row)
    (row_states base s rows) rows.
Proof.
  apply Forall2_same_length_lookup. split; [apply length_imap |].
  intros k state row Hst Hrow. unfold row_states in Hst.
  rewrite list_lookup_imap, Hrow in Hst. now injection Hst as <-.
Qed.

(** A successful [parse_csv], split into its two passes. *)
Lemma parse_csv_effect
    (initial_state_symbol final_state_symbol : string)
    (no_transition_symbol empty_string_symbol : string)
    (states_col_index state_symbols_col_index : Z)
    (header : Row) (rows : list Row) (w w' : World) :
  (0 <= states_col_index)%Z -> (0 <= state_symbols_col_index)%Z ->
  parse_csv initial_state_symbol final_state_symbol no_transition_symbol
    empty_string_symbol states_col_index state_symbols_col_index
    (header :: rows) w
  = (Return tt, w') ->
  states_col_index <> state_symbols_col_index
  /\ exists w1,
       for_each rows
         (parse_state_row initial_state_symbol final_state_symbol
            states_col_index state_symbols_col_index)
         (with_self empty_automaton w) = (Return tt, w1)
       /\ (states_col_index < Z.of_nat (length header))%Z
       /\ (state_symbols_col_index < Z.of_nat (length header))%Z
       /\ finals w' = finals w1 /\ disk w' = disk w1
       /\ states (self w') = states (self w1)
       /\ initial_state (self w') = initial_state (self w1)
       /\ map transition_names (transitions (self w'))
          = table_transitions no_transition_symbol empty_string_symbol
              states_col_index state_symbols_col_index header rows
       /\ Forall
            (fun row =>
               Forall
                 (fun cell =>
                    snd cell <> no_transition_symbol ->
                    has_state (self w1) (snd cell) = true)
                 (row_cells states_col_index state_symbols_col_index header
                    row))
            rows
       /\ Forall (fun t => origin t ∈ states (self w1)
                           /\ target t ∈ states (self w1))
            (transitions (self w')).
Proof.
  intros Hs Hm. unfold parse_csv.
  destruct (states_col_index =? state_symbols_col_index)%Z eqn:Hne;
    [discriminate |].
  apply Z.eqb_neq in Hne.
  unfold mbind, M_bind, try_except, reset, modify, raise. cbv beta iota.
  match goal with
  | |- context [populate ?a ?b ?c ?d ?s ?m ?f ?v] =>
      destruct (populate a b c d s m f v) as [[[] | e] w2] eqn:Hpop
  end; [| discriminate].
  intros [= <-]. split; [exact Hne |].
  revert Hpop. unfold populate. cbn [tail]. unfold mbind, M_bind.
  match goal with
  | |- context [for_each rows ?body ?v] =>
      destruct (for_each rows body v) as [[[] | e] w1] eqn:Hfirst
  end; [| discriminate].
  match goal with
  | |- context [pop_each header ?idx w1] =>
      destruct (pop_each header idx w1) as [[columns' | e] w3] eqn:Hp
  end; [| discriminate].
  apply pop_each_pair_inv in Hp as (Hhs & Hhm & -> & ->); try assumption.
  unfold gets. intros Hrows.
  exists w1. split; [reflexivity |].
  pose proof (first_pass_effect _ _ _ _ Hs Hm Hne _ _ _ Hfirst)
    as (_ & Hst & Htr & _).
  cbn [with_self self states transitions empty_automaton app] in Hst, Htr.
  rewrite Hst in Hrows.
  apply transition_rows_effect in Hrows; try assumption;
    [| apply row_states_names | now rewrite Hst].
  destruct Hrows as (ts & (Hf & Hd & Hs' & Hi & Ht) & Hn & Hr & Hmem).
  rewrite Htr in Ht. cbn [app] in Ht. rewrite Ht.
  repeat split; assumption.
Qed.

(** What a successful import leaves, in terms of the table. *)
Lemma parse_csv_import
    (initial_state_symbol final_state_symbol : string)
    (no_transition_symbol empty_string_symbol : string)
    (states_col_index state_symbols_col_index : Z)
    (header : Row) (rows : list Row) (w w' : World) :
  (0 <= states_col_index)%Z -> (0 <= state_symbols_col_index)%Z ->
  parse_csv initial_state_symbol final_state_symbol no_transition_symbol
    empty_string_symbol states_col_index state_symbols_col_index
    (header :: rows) w
  = (Return tt, w') ->
  (finals w'
   = finals w
     ++ ((fun row =>
            contains final_state_symbol
              (marker_cell state_symbols_col_index row)) <$> rows)
   /\ disk w' = disk w
   /\ states (self w') = row_states (length (finals w)) states_col_index rows
   /\ map transition_names (transitions (self w'))
      = table_transitions no_transition_symbol empty_string_symbol
          states_col_index state_symbols_col_index header rows
   /\ Forall (fun t => origin t ∈ states (self w')
                       /\ target t ∈ states (self w'))
        (transitions (self w')))
  /\ ((forall k row,
         rows !! k = Some row ->
         contains initial_state_symbol
           (marker_cell state_symbols_col_index row) = true ->
         initial_state (self w')
         = Some (mkState (length (finals w) + k)
                   (name_cell states_col_index row)))
      /\ ((forall row,
             row ∈ rows ->
             contains initial_state_symbol
               (marker_cell state_symbols_col_index row) = false) ->
          initial_state (self w') = None))
  /\ (states_col_index <> state_symbols_col_index
      /\ (states_col_index < Z.of_nat (length header))%Z
      /\ (state_symbols_col_index < Z.of_nat (length header))%Z
      /\ Forall (fun row =>
                   (states_col_index < Z.of_nat (length row))%Z
                   /\ (state_symbols_col_index < Z.of_nat (length row))%Z
                   /\ name_cell states_col_index row <> "") rows
      /\ NoDup (name_cell states_col_index <$> rows)
      /\ (forall row cell,
            row ∈ rows ->
            cell ∈ row_cells states_col_index state_symbols_col_index header
                     row ->
            snd cell <> no_transition_symbol ->
            exists row',
              row' ∈ rows /\ name_cell states_col_index row' = snd cell)).
Proof.
  intros Hs Hm H.
  apply parse_csv_effect in H
    as (Hne & w1 & Hfirst & Hhs & Hhm & Hf & Hd & Hst & Hi & Hn & Hr & Hmem);
    try assumption.
  pose proof (first_pass_effect _ _ _ _ Hs Hm Hne _ _ _ Hfirst)
    as (Hf1 & Hst1 & _ & Hd1 & Hrange & Hnodup & _ & Hinit & Hnoinit).
  cbn [with_self self finals disk states initial_state empty_automaton app]
    in Hf1, Hst1, Hd1, Hinit, Hnoinit.
  split; [| split].
  - rewrite Hf, Hf1, Hd, Hd1, Hst, Hst1. repeat split; try assumption.
    now rewrite <- Hst1.
  - rewrite Hi. split.
    + intros k row Hk Hmark. now apply (Hinit k row Hk Hmark).
    + exact Hnoinit.
  - repeat split; try assumption.
    intros row cell Hrow Hcell Hv.
    rewrite Forall_forall in Hr. specialize (Hr row Hrow).
    rewrite Forall_forall in Hr. specialize (Hr cell Hcell Hv).
    apply has_state_true in Hr as (st & Hin & Hname).
    rewrite Hst1 in Hin. unfold row_states in Hin.
    apply elem_of_lookup_imap in Hin as (k & row' & -> & Hk).
    exists row'. split; [| exact Hname].
    now apply list_elem_of_lookup_2 in Hk.
Qed.

(** ** [parse_csv]: what a successful import builds *)

(** X14: after a successful [parse_csv] with zero-based column indices the
    automaton has exactly one state per data row, in the order of the rows,
    each a State object created by this import and named by the name cell of
    its row; the names are non-empty and pairwise distinct.  States that the
    automaton had before are gone. *)
Theorem parse_csv_states
    (initial_state_symbol final_state_symbol : string)
    (no_transition_symbol empty_string_symbol : string)
    (states_col_index state_symbols_col_index : Z)
    (header : Row) (rows : list Row) (w w' : World) :
  (0 <= states_col_index)%Z -> (0 <= state_symbols_col_index)%Z ->
  parse_csv initial_state_symbol final_state_symbol no_transition_symbol
    empty_string_symbol states_col_index state_symbols_col_index
    (header :: rows) w
  = (Return tt, w') ->
  states (self w') = row_states (length (finals w)) states_col_index rows
  /\ name <$> states (self w') = name_cell states_col_index <$> rows
  /\ NoDup (name <$> states (self w'))
  /\ Forall (fun state => name state <> "") (states (self w')).
Proof.
  intros Hs Hm H.
  apply parse_csv_import in H
    as ((_ & _ & Hst & _) & _ & _ & _ & _ & Hrange & Hnodup & _);
    try assumption.
  assert (Hnames : name <$> states (self w')
                   = name_cell states_col_index <$> rows).
  { rewrite Hst. unfold row_states.
    rewrite fmap_imap. apply (imap_const (name_cell states_col_index)). }
  split; [exact Hst |]. split; [exact Hnames |]. split.
  - now rewrite Hnames.
  - apply Forall_fmap with (f := name) (P := fun n => n <> "").
    rewrite Hnames. apply Forall_fmap.
    eapply Forall_impl; [exact Hrange |]. now intros row (_ & _ & Hn).
Qed.

Lemma parse_csv_states_witness :
  exists w',
    parse_csv_default example_table empty_world = (Return tt, w')
    /\ states (self w') = [mkState 0 "q1"; mkState 1 "q2"; mkState 2 "q3"]
    /\ name <$> states (self w') = ["q1"; "q2"; "q3"]
    /\ NoDup (name <$> states (self w'))
    /\ Forall (fun state => name state <> "") (states (self w')).
Proof.
  eexists. split; [lazy; reflexivity |].
  apply (parse_csv_states ">" "*" "-" "-" 1 0 [""; ""; "a"; "b"; "c"; "-"]
           [ [">"; "q1"; "q2"; "-"; "q1"; "q3"];
             [""; "q2"; "q2"; "q1"; "q3"; "-"];
             ["*"; "q3"; "-"; "q1"; "q3"; "q2"] ] empty_world);
    [lia | lia | lazy; reflexivity].
Defined.

(** X15: after a successful [parse_csv] with zero-based column indices the
    transitions are exactly those the table asks for, row after row and column after column: one per cell
    other than the no-transition symbol, from the state of the row to the
    state the cell names, on the header label of the column (no condition
    for the empty-string symbol and for the empty label).  Origin and target
    of each are State objects of the state collection. *)
Theorem parse_csv_transitions
    (initial_state_symbol final_state_symbol : string)
    (no_transition_symbol empty_string_symbol : string)
    (states_col_index state_symbols_col_index : Z)
    (header : Row) (rows : list Row) (w w' : World) :
  (0 <= states_col_index)%Z -> (0 <= state_symbols_col_index)%Z ->
  parse_csv initial_state_symbol final_state_symbol no_transition_symbol
    empty_string_symbol states_col_index state_symbols_col_index
    (header :: rows) w
  = (Return tt, w') ->
  map transition_names (transitions (self w'))
  = table_transitions no_transition_symbol empty_string_symbol
      states_col_index state_symbols_col_index header rows
  /\ Forall (fun t => origin t ∈ states (self w')
                      /\ target t ∈ states (self w'))
       (transitions (self w')).
Proof.
  intros Hs Hm H.
  apply parse_csv_import in H as ((_ & _ & _ & Hn & Hmem) & _);
    try assumption.
  now split.
Qed.

Lemma parse_csv_transitions_witness :
  exists w',
    parse_csv_default example_table empty_world = (Return tt, w')
    /\ map transition_names (transitions (self w'))
       = [ ("q1", Some "a", "q2"); ("q1", Some "c", "q1"); ("q1", None, "q3");
           ("q2", Some "a", "q2"); ("q2", Some "b", "q1"); ("q2", Some "c", "q3");
           ("q3", Some "b", "q1"); ("q3", Some "c", "q3"); ("q3", None, "q2") ]
    /\ Forall (fun t => origin t ∈ states (self w')
                        /\ target t ∈ states (self w'))
         (transitions (self w')).
Proof.
  eexists. split; [lazy; reflexivity |].
  apply (parse_csv_transitions ">" "*" "-" "-" 1 0
           [""; ""; "a"; "b"; "c"; "-"]
           [ [">"; "q1"; "q2"; "-"; "q1"; "q3"];
             [""; "q2"; "q2"; "q1"; "q3"; "-"];
             ["*"; "q3"; "-"; "q1"; "q3"; "q2"] ] empty_world);
    [lia | lia | lazy; reflexivity].
Defined.

(** X16: a successful [parse_csv] with zero-based column indices had at
    most one data row whose state symbols cell contains the initial-state
    symbol; the initial state of the
    automaton is the State object of that row, and is unset when no row has
    the symbol. *)
Theorem parse_csv_initial_state
    (initial_state_symbol final_state_symbol : string)
    (no_transition_symbol empty_string_symbol : string)
    (states_col_index state_symbols_col_index : Z)
    (header : Row) (rows : list Row) (w w' : World) :
  (0 <= states_col_index)%Z -> (0 <= state_symbols_col_index)%Z ->
  parse_csv initial_state_symbol final_state_symbol no_transition_symbol
    empty_string_symbol states_col_index state_symbols_col_index
    (header :: rows) w
  = (Return tt, w') ->
  (forall k row,
     rows !! k = Some row ->
     contains initial_state_symbol (marker_cell state_symbols_col_index row)
     = true ->
     initial_state (self w') = states (self w') !! k
     /\ forall k' row',
          rows !! k' = Some row' ->
          contains initial_state_symbol
            (marker_cell state_symbols_col_index row') = true ->
          k' = k)
  /\ ((forall row,
         row ∈ rows ->
         contains initial_state_symbol
           (marker_cell state_symbols_col_index row) = false) ->
      initial_state (self w') = None).
Proof.
  intros Hs Hm H.
  apply parse_csv_import in H as ((_ & _ & Hst & _) & (Hinit & Hnone) & _);
    try assumption.
  split; [| exact Hnone].
  intros k row Hk Hmark. pose proof (Hinit k row Hk Hmark) as Hi. split.
  - rewrite Hi, Hst. unfold row_states.
    now rewrite list_lookup_imap, Hk.
  - intros k' row' Hk' Hmark'. pose proof (Hinit k' row' Hk' Hmark') as Hi'.
    rewrite Hi in Hi'. injection Hi' as Ho _. lia.
Qed.

Lemma parse_csv_initial_state_witness :
  exists w',
    parse_csv_default example_table empty_world = (Return tt, w')
    /\ initial_state (self w') = Some (mkState 0 "q1").
Proof.
  eexists. split; [lazy; reflexivity |].
  destruct (parse_csv_initial_state ">" "*" "-" "-" 1 0
              [""; ""; "a"; "b"; "c"; "-"]
              [ [">"; "q1"; "q2"; "-"; "q1"; "q3"];
                [""; "q2"; "q2"; "q1"; "q3"; "-"];
                ["*"; "q3"; "-"; "q1"; "q3"; "q2"] ] empty_world
              _ ltac:(lia) ltac:(lia) ltac:(lazy; reflexivity))
    as [Hinit _].
  destruct (Hinit 0 [">"; "q1"; "q2"; "-"; "q1"; "q3"] eq_refl eq_refl)
    as [Hi _].
  exact Hi.
Defined.

(** X17: after a successful [parse_csv] with zero-based column indices the
    state of a data row is final exactly when the state symbols cell of the row contains the final-state
    symbol; State objects that existed before the import keep their flag,
    and the file system is not touched. *)
Theorem parse_csv_final_flags
    (initial_state_symbol final_state_symbol : string)
    (no_transition_symbol empty_string_symbol : string)
    (states_col_index state_symbols_col_index : Z)
    (header : Row) (rows : list Row) (w w' : World) :
  (0 <= states_col_index)%Z -> (0 <= state_symbols_col_index)%Z ->
  parse_csv initial_state_symbol final_state_symbol no_transition_symbol
    empty_string_symbol states_col_index state_symbols_col_index
    (header :: rows) w
  = (Return tt, w') ->
  (forall k row,
     rows !! k = Some row ->
     exists state,
       states (self w') !! k = Some state
       /\ is_final w' state
          = contains final_state_symbol
              (marker_cell state_symbols_col_index row))
  /\ (forall state,
        oid state < length (finals w) ->
        is_final w' state = is_final w state)
  /\ disk w' = disk w.
Proof.
  intros Hs Hm H.
  apply parse_csv_import in H as ((Hf & Hd & Hst & _) & _);
    try assumption.
  split; [| split; [| exact Hd]].
  - intros k row Hk. eexists. split.
    + rewrite Hst. unfold row_states. now rewrite list_lookup_imap, Hk.
    + unfold is_final. cbn [oid]. rewrite Hf.
      rewrite lookup_app_r by lia.
      replace (length (finals w) + k - length (finals w)) with k by lia.
      now rewrite list_lookup_fmap, Hk.
  - intros state Ho. unfold is_final. rewrite Hf.
    now rewrite lookup_app_l by exact Ho.
Qed.

Lemma parse_csv_final_flags_witness :
  exists w' state,
    parse_csv_default example_table empty_world = (Return tt, w')
    /\ states (self w') !! 2 = Some state
    /\ is_final w' state = true.
Proof.
  destruct (parse_csv_final_flags ">" "*" "-" "-" 1 0
              [""; ""; "a"; "b"; "c"; "-"]
              [ [">"; "q1"; "q2"; "-"; "q1"; "q3"];
                [""; "q2"; "q2"; "q1"; "q3"; "-"];
                ["*"; "q3"; "-"; "q1"; "q3"; "q2"] ] empty_world
              (snd (parse_csv_default example_table empty_world))
              ltac:(lia) ltac:(lia) ltac:(lazy; reflexivity))
    as (Hrows & _ & _).
  destruct (Hrows 2 ["*"; "q3"; "-"; "q1"; "q3"; "q2"] eq_refl)
    as (state & Hk & Hf).
  exists (snd (parse_csv_default example_table empty_world)), state.
  split; [lazy; reflexivity |]. split; [exact Hk | exact Hf].
Defined.

(** ** Import followed by export *)

Lemma row_states_index (base : nat) (s : Z) (rows : list Row) (x : State)
    (i : nat) :
  x ∈ row_states base s rows ->
  index_of x (row_states base s rows) = Some i ->
  exists row, rows !! i = Some row /\ name x = name_cell s row.
Proof.
  intros Hin Hidx. apply index_of_Some in Hidx as [(y & Hy & Ho) _].
  unfold row_states in Hin, Hy.
  apply elem_of_lookup_imap in Hin as (k & row & -> & Hk).
  rewrite list_lookup_imap in Hy.
  destruct (rows !! i) as [row' |] eqn:Hi; [| discriminate].
  injection Hy as <-. cbn [oid] in Ho.
  assert (i = k) as -> by lia.
  rewrite Hk in Hi. injection Hi as <-. now exists row.
Qed.

Lemma imported_initial_marker (initial_state_symbol : string) (s m : Z)
    (base : nat) (rows : list Row) (initial : option State) :
  (forall k row,
     rows !! k = Some row ->
     contains initial_state_symbol (marker_cell m row) = true ->
     initial = Some (mkState (base + k) (name_cell s row))) ->
  ((forall row,
      row ∈ rows -> contains initial_state_symbol (marker_cell m row) = false) ->
   initial = None) ->
  forall k row,
    rows !! k = Some row ->
    match initial with
    | Some i => State_eqb i (mkState (base + k) (name_cell s row))
    | None => false
    end
    = contains initial_state_symbol (marker_cell m row).
Proof.
  intros Hinit Hnone k row Hk.
  destruct (contains initial_state_symbol (marker_cell m row)) eqn:Hmark.
  - rewrite (Hinit k row Hk Hmark). unfold State_eqb. cbn [oid].
    apply Nat.eqb_refl.
  - destruct (existsb
                (fun row => contains initial_state_symbol (marker_cell m row))
                rows) eqn:Hex.
    + apply existsb_exists in Hex as (row0 & Hin & Hmark0).
      apply list_elem_of_In, list_elem_of_lookup in Hin as [k0 Hk0].
      rewrite (Hinit k0 row0 Hk0 Hmark0). unfold State_eqb. cbn [oid].
      apply Nat.eqb_neq. intros Heq. assert (k0 = k) as -> by lia.
      rewrite Hk in Hk0. injection Hk0 as ->. congruence.
    + rewrite Hnone; [reflexivity |]. intros row0 Hin.
      apply not_true_iff_false. intros Hmark0.
      apply not_true_iff_false in Hex. apply Hex.
      apply existsb_exists. exists row0. split; [| exact Hmark0].
      now apply list_elem_of_In.
Qed.

(** X18: exporting right after a successful import with zero-based column
    indices writes the table: the
    document has one state element per data row, in order, named by the name
    cell and marked initial and final exactly as the state symbols cell of
    the row says; and it has one transition element per transition the
    table asks for, in order, whose two ends are the positions of the rows
    that bear the two names and whose text is the stored condition. *)
Theorem import_then_export_document
    (abspath : string -> string) (join : string -> string -> string)
    (split : string -> string * string)
    (initial_state_symbol final_state_symbol : string)
    (no_transition_symbol empty_string_symbol : string)
    (states_col_index state_symbols_col_index : Z)
    (header : Row) (rows : list Row)
    (filename : string) (dirname : option string)
    (drawing_radius_factor drawing_margin : R)
    (w w1 w2 : World) (path : string) :
  (0 <= states_col_index)%Z -> (0 <= state_symbols_col_index)%Z ->
  parse_csv initial_state_symbol final_state_symbol no_transition_symbol
    empty_string_symbol states_col_index state_symbols_col_index
    (header :: rows) w
  = (Return tt, w1) ->
  build_jff abspath join split filename dirname drawing_radius_factor
    drawing_margin w1 = (Return path, w2) ->
  exists jff,
    (path, jff) ∈ files (disk w2)
    /\ Forall2
         (fun row e =>
            jff_name e = name_cell states_col_index row
            /\ jff_initial e
               = contains initial_state_symbol
                   (marker_cell state_symbols_col_index row)
            /\ jff_final e
               = contains final_state_symbol
                   (marker_cell state_symbols_col_index row))
         rows (jff_states jff)
    /\ Forall2
         (fun names e =>
            (exists row, rows !! jff_from e = Some row
                         /\ name_cell states_col_index row = names.1.1)
            /\ (exists row, rows !! jff_to e = Some row
                            /\ name_cell states_col_index row = names.2)
            /\ jff_read e = names.1.2)
         (table_transitions no_transition_symbol empty_string_symbol
            states_col_index state_symbols_col_index header rows)
         (jff_transitions jff).
Proof.
  intros Hs Hm Himp Hexp.
  apply parse_csv_import in Himp
    as ((Hf & _ & Hst & Hn & Hmem) & (Hinit & Hnone) & _); try assumption.
  apply build_jff_outcome in Hexp as (_ & _ & _ & _ & es & Hes & ->).
  eexists. split; [cbn; apply elem_of_cons; left; reflexivity |].
  cbn [jff_states jff_transitions]. split.
  - apply Forall2_same_length_lookup. split.
    { rewrite length_imap, Hst. unfold row_states. now rewrite length_imap. }
    intros k row e Hk He. rewrite list_lookup_imap, Hst in He.
    unfold row_states in He. rewrite list_lookup_imap, Hk in He.
    injection He as <-. unfold jff_state.
    cbn [jff_name jff_initial jff_final name]. split; [reflexivity |]. split.
    + now apply (imported_initial_marker _ states_col_index) with (rows := rows).
    + unfold is_final. cbn [oid]. rewrite Hf.
      rewrite lookup_app_r by lia.
      replace (length (finals w) + k - length (finals w)) with k by lia.
      now rewrite list_lookup_fmap, Hk.
  - apply jff_transition_list_inv in Hes. rewrite <- Hn.
    change (map transition_names (transitions (self w1)))
      with (transition_names <$> transitions (self w1)).
    apply Forall2_fmap_l.
    apply Forall2_same_length_lookup. split; [now apply Forall2_length in Hes |].
    intros i t e Ht He.
    pose proof (Forall2_lookup_lr _ _ _ _ _ _ Hes Ht He) as (Hfrom & Hto & Hr).
    rewrite Forall_lookup in Hmem. destruct (Hmem i t Ht) as [Ho Hta].
    rewrite Hst in Hfrom, Hto, Ho, Hta.
    apply row_states_index in Hfrom as (ro & Hro & Hno); [| exact Ho].
    apply row_states_index in Hto as (rt & Hrt & Hnt); [| exact Hta].
    unfold transition_names. cbn [fst snd compose].
    split; [now exists ro |]. split; [now exists rt | exact Hr].
Qed.

Lemma import_then_export_document_witness :
  exists w1 path w2 jff,
    parse_csv_default example_table export_ready_world = (Return tt, w1)
    /\ build_jff plain_abspath plain_join plain_split "out" None 25 100 w1
       = (Return path, w2)
    /\ (path, jff) ∈ files (disk w2)
    /\ length (jff_states jff) = 3
    /\ length (jff_transitions jff) = 9.
Proof.
  set (w1 := snd (parse_csv_default example_table export_ready_world)).
  set (w2 := snd (build_jff plain_abspath plain_join plain_split "out" None
                    25 100 w1)).
  assert (Himp : parse_csv ">" "*" "-" "-" 1 0
                   ([""; ""; "a"; "b"; "c"; "-"]
                      :: [ [">"; "q1"; "q2"; "-"; "q1"; "q3"];
                           [""; "q2"; "q2"; "q1"; "q3"; "-"];
                           ["*"; "q3"; "-"; "q1"; "q3"; "q2"] ])
                   export_ready_world
                 = (Return tt, w1))
    by (lazy; reflexivity).
  assert (Hexp : build_jff plain_abspath plain_join plain_split "out" None
                   25 100 w1
                 = (Return "out.jff", w2))
    by (lazy -[position radius angle]; reflexivity).
  assert (Hs : (0 <= 1)%Z) by lia.
  assert (Hm : (0 <= 0)%Z) by lia.
  destruct (import_then_export_document _ _ _ _ _ _ _ _ _ _ _ _ _ _ _ _ _ _ _
              Hs Hm Himp Hexp) as (jff & Hin & Hsts & Hts).
  exists w1, "out.jff", w2, jff.
  split; [lazy; reflexivity |]. split; [exact Hexp |].
  split; [exact Hin |]. split.
  - apply Forall2_length in Hsts. now rewrite <- Hsts.
  - apply Forall2_length in Hts. now rewrite <- Hts.
Defined.

(** X19: exporting right after a successful import with zero-based column
    indices fails with
    NoInitialStateError when no data row has the initial-state symbol, and
    with NoFinalStateError when some row has it and no row has the
    final-state symbol; whenever it fails, it fails with one of the errors
    [build_jff] raises by itself, never with the ValueError of
    [list.index]. *)
Theorem import_then_export_errors
    (abspath : string -> string) (join : string -> string -> string)
    (split : string -> string * string)
    (initial_state_symbol final_state_symbol : string)
    (no_transition_symbol empty_string_symbol : string)
    (states_col_index state_symbols_col_index : Z)
    (header : Row) (rows : list Row)
    (filename : string) (dirname : option string)
    (drawing_radius_factor drawing_margin : R)
    (w w1 : World) :
  (0 <= states_col_index)%Z -> (0 <= state_symbols_col_index)%Z ->
  parse_csv initial_state_symbol final_state_symbol no_transition_symbol
    empty_string_symbol states_col_index state_symbols_col_index
    (header :: rows) w
  = (Return tt, w1) ->
  ((forall row,
      row ∈ rows ->
      contains initial_state_symbol (marker_cell state_symbols_col_index row)
      = false) ->
   build_jff abspath join split filename dirname drawing_radius_factor
     drawing_margin w1 = (Raise NoInitialStateError, w1))
  /\ ((exists row,
         row ∈ rows
         /\ contains initial_state_symbol
              (marker_cell state_symbols_col_index row) = true) ->
      (forall row,
         row ∈ rows ->
         contains final_state_symbol (marker_cell state_symbols_col_index row)
         = false) ->
      build_jff abspath join split filename dirname drawing_radius_factor
        drawing_margin w1 = (Raise NoFinalStateError, w1))
  /\ (forall e w2,
        build_jff abspath join split filename dirname drawing_radius_factor
          drawing_margin w1 = (Raise e, w2) ->
        export_error e).
Proof.
  intros Hs Hm Himp.
  apply parse_csv_import in Himp
    as ((Hf & _ & Hst & _ & Hmem) & (Hinit & Hnone) & _); try assumption.
  split; [| split].
  - intros Hno. unfold build_jff, mbind, M_bind, gets, raise, has_initial_state.
    cbv beta iota. now rewrite (Hnone Hno).
  - intros (row & Hin & Hmark) Hno.
    apply list_elem_of_lookup in Hin as [k Hk].
    assert (Hfin : has_final_state w1 = false).
    { apply has_final_state_false. intros state Hstate.
      rewrite Hst in Hstate. unfold row_states in Hstate.
      apply elem_of_lookup_imap in Hstate as (k' & row' & -> & Hk').
      unfold is_final. cbn [oid]. rewrite Hf.
      rewrite lookup_app_r by lia.
      replace (length (finals w) + k' - length (finals w)) with k' by lia.
      rewrite list_lookup_fmap, Hk'. cbn.
      apply Hno. now apply list_elem_of_lookup_2 in Hk'. }
    assert (Hini : has_initial_state (self w1) = true).
    { unfold has_initial_state. now rewrite (Hinit k row Hk Hmark). }
    unfold build_jff, mbind, M_bind, gets, raise. cbv beta iota.
    rewrite Hini. cbn [negb]. now rewrite Hfin.
  - intros e w2 H.
    apply build_jff_outcome in H as [_ [H | (_ & es & e' & H)]]; [exact H |].
    destruct (jff_transition_list_ok (transitions (self w1)) w1) as [es' Hok].
    + intros t Ht. rewrite Forall_forall in Hmem.
      destruct (Hmem t Ht) as [Ho Hta]. split; eexists; eauto.
    + rewrite Hok in H. discriminate.
Qed.

Lemma import_then_export_errors_witness :
  exists w1,
    parse_csv_default no_initial_table empty_world = (Return tt, w1)
    /\ build_jff plain_abspath plain_join plain_split "out" None 25 100 w1
       = (Raise NoInitialStateError, w1).
Proof.
  eexists. split; [lazy; reflexivity |].
  destruct (import_then_export_errors plain_abspath plain_join plain_split
              ">" "*" "-" "-" 1 0 [""; ""; "a"] [ ["*"; "q1"; "q1"] ]
              "out" None 25 100 empty_world _
              ltac:(lia) ltac:(lia) ltac:(lazy; reflexivity))
    as (Hno & _ & _).
  apply Hno. intros row Hin. apply list_elem_of_singleton in Hin.
  subst row. reflexivity.
Defined.

(** ** [parse_csv]: the tables that are imported *)

(** [parse_csv] on a table with a header succeeds exactly when its two
    passes do. *)
Lemma parse_csv_passes
    (initial_state_symbol final_state_symbol : string)
    (no_transition_symbol empty_string_symbol : string)
    (states_col_index state_symbols_col_index : Z)
    (header : Row) (rows : list Row) (w w' : World) :
  (0 <= states_col_index)%Z -> (0 <= state_symbols_col_index)%Z ->
  parse_csv initial_state_symbol final_state_symbol no_transition_symbol
    empty_string_symbol states_col_index state_symbols_col_index
    (header :: rows) w
  = (Return tt, w')
  <-> states_col_index <> state_symbols_col_index
      /\ (states_col_index < Z.of_nat (length header))%Z
      /\ (state_symbols_col_index < Z.of_nat (length header))%Z
      /\ exists w1,
           for_each rows
             (parse_state_row initial_state_symbol final_state_symbol
                states_col_index state_symbols_col_index)
             (with_self empty_automaton w) = (Return tt, w1)
           /\ parse_transition_rows no_transition_symbol empty_string_symbol
                (without_columns
                   [Z.to_nat states_col_index;
                    Z.to_nat state_symbols_col_index] header)
                (rev (sorted [states_col_index; state_symbols_col_index]))
                (states (self w1)) rows w1
              = (Return tt, w').
Proof.
  intros Hs Hm. unfold parse_csv.
  destruct (states_col_index =? state_symbols_col_index)%Z eqn:Hne.
  { apply Z.eqb_eq in Hne. split; [discriminate | tauto]. }
  apply Z.eqb_neq in Hne.
  unfold mbind, M_bind, try_except, reset, modify, raise. cbv beta iota.
  unfold populate. cbn [tail]. unfold mbind, M_bind, gets.
  match goal with
  | |- context [for_each rows ?body ?v] =>
      destruct (for_each rows body v) as [[[] | e] w1] eqn:Hfirst
  end.
  2:{ split; [discriminate |]. intros (_ & _ & _ & w2 & [=] & _). }
  match goal with
  | |- context [pop_each header ?idx w1] =>
      destruct (pop_each header idx w1) as [[columns' | e] w3] eqn:Hp
  end.
  - apply pop_each_pair_inv in Hp as (Hhs & Hhm & -> & ->); try assumption.
    split.
    + intros H. repeat split; try assumption. exists w1. split; [reflexivity |].
      match type of H with
      | context [parse_transition_rows ?a ?b ?c ?d ?e ?f ?g] =>
          destruct (parse_transition_rows a b c d e f g) as [[[] | e0] w4];
          [| discriminate]
      end.
      now injection H as <-.
    + intros (_ & _ & _ & w2 & [= <-] & H). now rewrite H.
  - split; [discriminate |]. intros (_ & Hhs & Hhm & _).
    rewrite pop_each_in_range in Hp by (try lia; assumption). discriminate.
Qed.

Lemma row_states_oids (base : nat) (s : Z) (rows : list Row) :
  NoDup (oid <$> row_states base s rows).
Proof.
  apply NoDup_alt. intros i j x. unfold row_states.
  rewrite !list_lookup_fmap, !list_lookup_imap.
  destruct (rows !! i), (rows !! j); cbn; try discriminate.
  intros [= <-] [= H]. lia.
Qed.

Section FirstPassRuns.

Variables (initial_state_symbol final_state_symbol : string).
Variables (states_col_index state_symbols_col_index : Z).

Hypothesis states_col_nonneg : (0 <= states_col_index)%Z.
Hypothesis state_symbols_col_nonneg : (0 <= state_symbols_col_index)%Z.
Hypothesis cols_distinct : states_col_index <> state_symbols_col_index.

Local Abbreviation state_row :=
  (parse_state_row initial_state_symbol final_state_symbol states_col_index
     state_symbols_col_index).
Local Abbreviation is_initial_row row :=
  (contains initial_state_symbol (marker_cell state_symbols_col_index row)).
Local Abbreviation usable row :=
  (Z.lt states_col_index (Z.of_nat (length row))
   /\ Z.lt state_symbols_col_index (Z.of_nat (length row))
   /\ name_cell states_col_index row <> "").

Lemma parse_state_row_runs (row : Row) (w : World) :
  usable row ->
  has_state (self w) (name_cell states_col_index row) = false ->
  (is_initial_row row = true -> initial_state (self w) = None) ->
  exists w', state_row row w = (Return tt, w').
Proof.
  intros (Hs & Hm & Hname) Hnew Hinit.
  destruct (lookup_lt_is_Some_2 row (Z.to_nat states_col_index)) as [cell Hc];
    [lia |].
  destruct (lookup_lt_is_Some_2 row (Z.to_nat state_symbols_col_index))
    as [ty Ht]; [lia |].
  assert (Hcell : name_cell states_col_index row = cell)
    by (unfold name_cell; now rewrite Hc).
  assert (Hty : marker_cell state_symbols_col_index row = ty)
    by (unfold marker_cell; now rewrite Ht).
  rewrite Hcell in Hname, Hnew. rewrite Hty in Hinit.
  rewrite (parse_state_row_in_range _ _ _ _ row cell ty);
    try assumption; try lia.
  unfold mbind, M_bind. rewrite (add_state_new cell w Hname Hnew).
  unfold mark_state, set_initial_state, set_is_final.
  unfold mbind, M_bind, gets, modify, raise, mret, M_ret. cbv beta iota.
  cbn [self initial_state states name with_self with_finals].
  assert (Hknown : forall i,
            has_state
              (mkAutomaton i
                 (states (self w) ++ [mkState (fresh_oid (finals w)) cell])
                 (transitions (self w))) cell = true).
  { intros i. apply has_state_true. exists (mkState (fresh_oid (finals w)) cell).
    split; [| reflexivity]. cbn [states].
    apply elem_of_app. right. apply list_elem_of_singleton. reflexivity. }
  destruct (contains initial_state_symbol ty).
  - cbn [self initial_state]. rewrite (Hinit eq_refl). cbv beta iota.
    cbn [self]. rewrite Hknown.
    destruct (contains final_state_symbol ty); eauto.
  - destruct (contains final_state_symbol ty); eauto.
Qed.

Lemma first_pass_runs (rows : list Row) (w : World) :
  Forall (fun row => usable row) rows ->
  NoDup (name_cell states_col_index <$> rows) ->
  (forall row,
     row ∈ rows -> has_state (self w) (name_cell states_col_index row) = false) ->
  (forall k k' row row',
     rows !! k = Some row -> rows !! k' = Some row' ->
     is_initial_row row = true -> is_initial_row row' = true -> k = k') ->
  ((exists row, row ∈ rows /\ is_initial_row row = true) ->
   initial_state (self w) = None) ->
  exists w', for_each rows state_row w = (Return tt, w').
Proof.
  revert w. induction rows as [| row rows IH];
    intros w Huse Hnodup Hnew Hone Hinit; [now exists w |].
  apply Forall_cons in Huse as [Hrow Huse].
  cbn [fmap list_fmap] in Hnodup. apply NoDup_cons in Hnodup as [Hnotin Hnodup].
  destruct (parse_state_row_runs row w Hrow) as [w1 Hrun].
  { apply Hnew. apply elem_of_cons. now left. }
  { intros Hmark. apply Hinit. exists row. split; [| exact Hmark].
    apply elem_of_cons. now left. }
  pose proof (parse_state_row_effect _ _ _ _ states_col_nonneg
                state_symbols_col_nonneg cols_distinct _ _ _ Hrun)
    as (_ & _ & _ & _ & _ & _ & Hst & Hi & _).
  cbv zeta in Hst, Hi.
  destruct (IH w1) as [w' Hrest]; try assumption.
  - intros row' Hin. apply has_state_false. intros st Hst'.
    rewrite Hst in Hst'. apply elem_of_app in Hst' as [Hold | Hown].
    + assert (Hf : has_state (self w) (name_cell states_col_index row') = false)
        by (apply Hnew; apply elem_of_cons; now right).
      rewrite has_state_false in Hf. now apply Hf.
    + apply list_elem_of_singleton in Hown. subst st. cbn [name].
      intros Heq. apply Hnotin. rewrite Heq.
      now apply list_elem_of_fmap_2.
  - intros k k' r r' Hk Hk' Hr Hr'.
    specialize (Hone (S k) (S k') r r' Hk Hk' Hr Hr'). lia.
  - intros (row' & Hin & Hmark). rewrite Hi.
    destruct (is_initial_row row) eqn:Hhead.
    + apply list_elem_of_lookup in Hin as [k Hk].
      specialize (Hone 0 (S k) row row' eq_refl Hk Hhead Hmark). discriminate.
    + apply Hinit. exists row'. split; [| exact Hmark].
      apply elem_of_cons. now right.
  - exists w'. cbn [for_each]. unfold mbind, M_bind. now rewrite Hrun.
Qed.

End FirstPassRuns.

Section SecondPassRuns.

Variables (no_transition_symbol empty_string_symbol : string).
Variables (states_col_index state_symbols_col_index : Z).

Hypothesis states_col_nonneg : (0 <= states_col_index)%Z.
Hypothesis state_symbols_col_nonneg : (0 <= state_symbols_col_index)%Z.
Hypothesis cols_distinct : states_col_index <> state_symbols_col_index.

Local Abbreviation cell_body :=
  (parse_cell no_transition_symbol empty_string_symbol).
Local Abbreviation indices :=
  (rev (sorted [states_col_index; state_symbols_col_index])).
Local Abbreviation removed :=
  [Z.to_nat states_col_index; Z.to_nat state_symbols_col_index].
Local Abbreviation asking := (asking_labels no_transition_symbol).
Local Abbreviation passed label := (when_of_label empty_string_symbol label).
Local Abbreviation fresh := (labels_fresh empty_string_symbol).
Local Abbreviation resolved w cell :=
  (snd cell <> no_transition_symbol -> has_state (self w) (snd cell) = true).
Local Abbreviation cells header row :=
  (row_cells states_col_index state_symbols_col_index header row).

Lemma asking_labels_skip (label : string) (l : list (string * string)) :
  asking ((label, no_transition_symbol) :: l) = asking l.
Proof.
  unfold asking_labels. cbn [List.filter snd].
  now rewrite String.eqb_refl.
Qed.

Lemma asking_labels_cons (label v : string) (l : list (string * string)) :
  v <> no_transition_symbol ->
  asking ((label, v) :: l) = label :: asking l.
Proof.
  intros Hv. apply String.eqb_neq in Hv.
  unfold asking_labels. cbn [List.filter snd]. now rewrite Hv.
Qed.

Lemma parse_cell_inv (state : State) (label v : string) (w w' : World) :
  cell_body state (label, v) w = (Return tt, w') ->
  (v = no_transition_symbol /\ w' = w)
  \/ (v <> no_transition_symbol
      /\ exists t,
           get_state (self w) v = Some t
           /\ has_transition (self w) state (passed label) = false
           /\ w' = append_transition
                     (Transition_init state (Some t) (passed label)) w).
Proof.
  unfold parse_cell.
  destruct (String.eqb v no_transition_symbol) eqn:Hv.
  - apply String.eqb_eq in Hv. intros [= <-]. now left.
  - apply String.eqb_neq in Hv.
    unfold mbind, M_bind, gets, raise, mret, M_ret. cbv beta iota.
    destruct (get_state (self w) v) as [t |] eqn:Hget; [| discriminate].
    fold (passed label).
    destruct (add_transition state (Some t) _ w) as [[tr | e] w1] eqn:Ha;
      [| discriminate].
    apply add_transition_inv in Ha as (-> & Hfree & ->). intros [= <-].
    right. split; [exact Hv |]. now exists t.
Qed.

Lemma parse_cell_runs (state : State) (label v : string) (w : World) :
  state ∈ states (self w) ->
  (v <> no_transition_symbol ->
   has_state (self w) v = true
   /\ has_transition (self w) state (passed label) = false) ->
  exists w', cell_body state (label, v) w = (Return tt, w').
Proof.
  intros Hstate Hcell. unfold parse_cell.
  destruct (String.eqb v no_transition_symbol) eqn:Hv; [now exists w |].
  apply String.eqb_neq in Hv. destruct (Hcell Hv) as [Hknown Hfree].
  unfold mbind, M_bind, gets, raise, mret, M_ret. cbv beta iota.
  unfold has_state in Hknown.
  destruct (get_state (self w) v) as [t |] eqn:Hget; [| discriminate].
  fold (passed label).
  rewrite (add_transition_new state (Some t) (passed label) w Hfree).
  - eauto.
  - apply has_state_true. now exists state.
  - intros t' [= <-]. apply has_state_true. exists t.
    unfold get_state in Hget. apply find_some in Hget as [Hin Heq].
    split; [now apply list_elem_of_In | reflexivity].
Qed.

(** The duplicate test, seen from the labels of a processed row. *)
Lemma cells_fresh (state : State) (l : list (string * string))
    (w w' : World) :
  for_each l (cell_body state) w = (Return tt, w') ->
  fresh (asking l)
  /\ forall t,
       t ∈ transitions (self w) -> oid (origin t) = oid state ->
       Forall (fun b => when t <> passed b) (asking l).
Proof.
  revert w. induction l as [| [label v] l IH]; intros w; cbn [for_each].
  - intros _. split; [exact I |]. intros t _ _. constructor.
  - unfold mbind, M_bind.
    destruct (cell_body state (label, v) w) as [[[] | e] w1] eqn:Hc;
      [| discriminate].
    intros Hrest. apply IH in Hrest as [Hfresh Hold].
    apply parse_cell_inv in Hc as [[-> ->] | (Hv & t & _ & Hfree & ->)].
    + rewrite asking_labels_skip. now split.
    + rewrite (asking_labels_cons _ _ _ Hv). split.
      * cbn [labels_fresh]. split; [| exact Hfresh].
        rewrite <- (stored_condition_when empty_string_symbol label state
                      (Some t)).
        apply Hold; [| reflexivity].
        cbn. apply elem_of_app. right. now apply list_elem_of_singleton.
      * intros t' Hin Ho. constructor.
        -- rewrite has_transition_false in Hfree. now apply Hfree.
        -- apply Hold; [| exact Ho]. cbn. apply elem_of_app. now left.
Qed.

Lemma cells_run (state : State) (l : list (string * string)) (w : World) :
  state ∈ states (self w) ->
  Forall (fun cell => resolved w cell) l ->
  fresh (asking l) ->
  (forall t,
     t ∈ transitions (self w) -> oid (origin t) = oid state ->
     Forall (fun b => when t <> passed b) (asking l)) ->
  exists w', for_each l (cell_body state) w = (Return tt, w').
Proof.
  revert w. induction l as [| [label v] l IH];
    intros w Hstate Hres Hfresh Hold; [now exists w |].
  apply Forall_cons in Hres as [Hv Hres]. cbn [snd] in Hv.
  destruct (String.eqb v no_transition_symbol) eqn:Hskip.
  - apply String.eqb_eq in Hskip. subst v.
    rewrite asking_labels_skip in Hfresh, Hold.
    destruct (IH w Hstate Hres Hfresh Hold) as [w' Hrun].
    exists w'. cbn [for_each]. unfold mbind, M_bind.
    unfold parse_cell at 1. now rewrite String.eqb_refl.
  - apply String.eqb_neq in Hskip.
    rewrite (asking_labels_cons _ _ _ Hskip) in Hfresh, Hold.
    cbn [labels_fresh] in Hfresh. destruct Hfresh as [Hhead Hfresh].
    assert (Hfree : has_transition (self w) state (passed label) = false).
    { apply has_transition_false. intros t Hin Ho.
      specialize (Hold t Hin Ho). now apply Forall_cons in Hold as [Hold _]. }
    destruct (parse_cell_runs state label v w Hstate) as [w1 Hc];
      [intros _; split; [now apply Hv | exact Hfree] |].
    pose proof Hc as Hinv.
    apply parse_cell_inv in Hinv as [[Heq _] | (_ & t & _ & _ & ->)];
      [contradiction |].
    destruct (IH (append_transition
                    (Transition_init state (Some t) (passed label)) w))
      as [w' Hrun].
    + exact Hstate.
    + exact Hres.
    + exact Hfresh.
    + intros t' Hin Ho. cbn in Hin. apply elem_of_app in Hin as [Hin | Hin].
      * specialize (Hold t' Hin Ho). now apply Forall_cons in Hold as [_ Hold].
      * apply list_elem_of_singleton in Hin. subst t'.
        now rewrite stored_condition_when.
    + exists w'. cbn [for_each]. unfold mbind, M_bind. now rewrite Hc.
Qed.

Lemma transition_rows_fresh (header : Row) (states' : list State)
    (rows : list Row) (w w' : World) :
  length states' = length rows ->
  parse_transition_rows no_transition_symbol empty_string_symbol
    (without_columns removed header) indices states' rows w
  = (Return tt, w') ->
  Forall (fun row => fresh (asking (cells header row))) rows.
Proof.
  revert rows w. induction states' as [| state states' IH];
    intros [| row rows] w Hlen; try discriminate; [constructor |].
  cbn [parse_transition_rows]. unfold mbind, M_bind.
  destruct (pop_each row indices w) as [[r | e] w1] eqn:Hp; [| discriminate].
  apply pop_each_pair_inv in Hp as (_ & _ & -> & ->); try assumption.
  destruct (for_each _ (cell_body state) w) as [[[] | e] w2] eqn:Hcells;
    [| discriminate].
  intros Hrest. constructor.
  - now apply cells_fresh in Hcells as [Hfresh _].
  - apply (IH rows w2); [now injection Hlen | exact Hrest].
Qed.

Lemma transition_rows_run (header : Row) (states' : list State)
    (rows : list Row) (w : World) :
  length states' = length rows ->
  NoDup (oid <$> states') ->
  (forall state, state ∈ states' -> state ∈ states (self w)) ->
  (forall t state,
     t ∈ transitions (self w) -> state ∈ states' ->
     oid (origin t) <> oid state) ->
  Forall (fun row =>
            (states_col_index < Z.of_nat (length row))%Z
            /\ (state_symbols_col_index < Z.of_nat (length row))%Z) rows ->
  Forall (fun row => Forall (fun cell => resolved w cell) (cells header row))
    rows ->
  Forall (fun row => fresh (asking (cells header row))) rows ->
  exists w',
    parse_transition_rows no_transition_symbol empty_string_symbol
      (without_columns removed header) indices states' rows w
    = (Return tt, w').
Proof.
  revert rows w. induction states' as [| state states' IH];
    intros [| row rows] w Hlen Hnodup Hsub Hother Hrange Hres Hfresh;
    try discriminate; [now exists w |].
  apply Forall_cons in Hrange as [[Hs Hm] Hrange].
  apply Forall_cons in Hres as [Hres0 Hres].
  apply Forall_cons in Hfresh as [Hfresh0 Hfresh].
  cbn [fmap list_fmap] in Hnodup. apply NoDup_cons in Hnodup as [Hnotin Hnodup].
  destruct (cells_run state (cells header row) w) as [w2 Hcells];
    try assumption.
  { apply Hsub. apply elem_of_cons. now left. }
  { intros t Hin Ho. exfalso. apply (Hother t state Hin); [| exact Ho].
    apply elem_of_cons. now left. }
  pose proof (cells_effect _ _ _ _ _ _ Hcells)
    as (ts & (_ & _ & Hst & _ & Hts) & _ & _ & Horigin).
  destruct (IH rows w2) as [w' Hrest]; try assumption.
  - now injection Hlen.
  - intros st Hin. rewrite Hst. apply Hsub. apply elem_of_cons. now right.
  - intros t st Hin Hin'. rewrite Hts in Hin.
    apply elem_of_app in Hin as [Hin | Hin].
    + apply (Hother t st Hin). apply elem_of_cons. now right.
    + rewrite Forall_forall in Horigin. destruct (Horigin t Hin) as [-> _].
      intros Heq. apply Hnotin. rewrite Heq. now apply list_elem_of_fmap_2.
  - eapply Forall_impl; [exact Hres |]. intros row' Hrow'.
    eapply Forall_impl; [exact Hrow' |]. intros c Hc Hv.
    specialize (Hc Hv). unfold has_state, get_state in *. now rewrite Hst.
  - exists w'. cbn [parse_transition_rows]. unfold mbind, M_bind.
    rewrite pop_each_in_range by (try lia; assumption).
    unfold row_cells in Hcells. now rewrite Hcells.
Qed.

End SecondPassRuns.

(** X20: [parse_csv] with zero-based column indices succeeds exactly on the
    well-formed tables, whatever the automaton held before: the two indices
    differ and lie inside the header and inside every data row; every name
    cell is non-empty and no two data rows have the same name cell; at most
    one data row has the initial-state symbol; every cell under a retained
    column is the no-transition symbol or the name cell of some data row;
    and in no row the condition passed for an asking cell is the condition
    stored for an earlier asking cell of that row. *)
Theorem parse_csv_succeeds_iff
    (initial_state_symbol final_state_symbol : string)
    (no_transition_symbol empty_string_symbol : string)
    (states_col_index state_symbols_col_index : Z)
    (header : Row) (rows : list Row) (w : World) :
  (0 <= states_col_index)%Z -> (0 <= state_symbols_col_index)%Z ->
  (exists w',
     parse_csv initial_state_symbol final_state_symbol no_transition_symbol
       empty_string_symbol states_col_index state_symbols_col_index
       (header :: rows) w
     = (Return tt, w'))
  <-> well_formed_table initial_state_symbol no_transition_symbol
        empty_string_symbol states_col_index state_symbols_col_index
        header rows.
Proof.
  intros Hs Hm. unfold well_formed_table. split.
  - intros [w' H].
    pose proof (parse_csv_import _ _ _ _ _ _ _ _ _ _ Hs Hm H)
      as (_ & (Hinit & _) & Hne & Hhs & Hhm & Huse & Hnodup & Hres).
    apply parse_csv_passes in H as (_ & _ & _ & w1 & Hfirst & Hsecond);
      try assumption.
    pose proof (first_pass_effect _ _ _ _ Hs Hm Hne _ _ _ Hfirst)
      as (_ & Hst & _).
    cbn [with_self self states empty_automaton app] in Hst.
    apply transition_rows_fresh in Hsecond; try assumption.
    2:{ rewrite Hst. unfold row_states. apply length_imap. }
    repeat split; try assumption.
    + intros k k' row row' Hk Hk' Hmark Hmark'.
      pose proof (Hinit k row Hk Hmark) as Hi.
      rewrite (Hinit k' row' Hk' Hmark') in Hi. injection Hi as Ho _. lia.
    + intros row Hin. rewrite Forall_forall in Hsecond. now apply Hsecond.
  - intros (Hne & Hhs & Hhm & Huse & Hnodup & Hone & Hres & Hfresh).
    destruct (first_pass_runs initial_state_symbol final_state_symbol
                states_col_index state_symbols_col_index Hs Hm Hne rows
                (with_self empty_automaton w))
      as [w1 Hfirst]; try assumption.
    { intros row _. apply has_state_false. intros st Hst. inversion Hst. }
    { reflexivity. }
    pose proof (first_pass_effect _ _ _ _ Hs Hm Hne _ _ _ Hfirst)
      as (_ & Hst & Htr & _).
    cbn [with_self self states transitions empty_automaton app] in Hst, Htr.
    destruct (transition_rows_run no_transition_symbol empty_string_symbol
                states_col_index state_symbols_col_index Hs Hm Hne header
                (states (self w1)) rows w1)
      as [w' Hsecond].
    + rewrite Hst. unfold row_states. apply length_imap.
    + rewrite Hst. apply row_states_oids.
    + tauto.
    + intros t st Hin. rewrite Htr in Hin. inversion Hin.
    + eapply Forall_impl; [exact Huse |]. now intros row (? & ? & _).
    + apply Forall_forall. intros row Hin. apply Forall_forall.
      intros cell Hcell Hv.
      destruct (Hres row cell Hin Hcell Hv) as (row' & Hin' & Hname).
      apply has_state_true. rewrite Hst.
      apply list_elem_of_lookup in Hin' as [k Hk].
      exists (mkState (length (finals w) + k)
                (name_cell states_col_index row')).
      split; [| exact Hname].
      unfold row_states. apply elem_of_lookup_imap. now exists k, row'.
    + apply Forall_forall. exact Hfresh.
    + exists w'. apply parse_csv_passes; try assumption.
      repeat split; try assumption. now exists w1.
Qed.

Lemma parse_csv_succeeds_iff_witness :
  well_formed_table ">" "-" "-" 1 0 [""; ""; "a"; "b"; "c"; "-"]
    [ [">"; "q1"; "q2"; "-"; "q1"; "q3"];
      [""; "q2"; "q2"; "q1"; "q3"; "-"];
      ["*"; "q3"; "-"; "q1"; "q3"; "q2"] ].
Proof.
  assert (Hs : (0 <= 1)%Z) by lia.
  assert (Hm : (0 <= 0)%Z) by lia.
  apply (proj1 (parse_csv_succeeds_iff ">" "*" "-" "-" 1 0
                  [""; ""; "a"; "b"; "c"; "-"]
                  [ [">"; "q1"; "q2"; "-"; "q1"; "q3"];
                    [""; "q2"; "q2"; "q1"; "q3"; "-"];
                    ["*"; "q3"; "-"; "q1"; "q3"; "q2"] ] empty_world Hs Hm)).
  eexists. lazy. reflexivity.
Defined.

(** ** [parse_csv]: the errors of the two passes *)

Lemma pop_or_raise_error {A : Type} (l : list A) (i : Z) (w w' : World)
    (e : Error) :
  pop_or_raise l i w = (Raise e, w') -> import_error e.
Proof.
  unfold pop_or_raise, import_error. destruct (pop l i); [discriminate |].
  intros [= <- _]. eauto.
Qed.

Lemma pop_each_error (row : Row) (indices : list Z) (w w' : World)
    (e : Error) :
  pop_each row indices w = (Raise e, w') -> import_error e.
Proof.
  revert row w. induction indices as [| i indices IH]; intros row w;
    cbn [pop_each]; [discriminate |].
  unfold mbind, M_bind.
  destruct (pop_or_raise row i w) as [[[x row'] | e0] w1] eqn:Hp.
  - apply IH.
  - intros [= <- _]. now apply pop_or_raise_error in Hp.
Qed.

Lemma add_state_error (s : string) (w w' : World) (e : Error) :
  add_state s w = (Raise e, w') -> import_error e.
Proof.
  unfold add_state, State_init, import_error. step.
  destruct (has_state (self w) s); [intros [= <- _]; eauto 10 |].
  destruct (String.eqb s ""); [intros [= <- _]; eauto 10 | discriminate].
Qed.

Lemma add_transition_error (o : State) (t : option State) (c : option string)
    (w w' : World) (e : Error) :
  add_transition o t c w = (Raise e, w') -> import_error e.
Proof.
  unfold add_transition, import_error. step.
  destruct (has_transition (self w) o c); [intros [= <- _]; eauto 10 |].
  destruct (has_state (self w) (name o)); [| intros [= <- _]; eauto 10].
  destruct t as [t |]; cbn; [| discriminate].
  destruct (has_state (self w) (name t)); [discriminate |].
  intros [= <- _]. eauto 10.
Qed.

Section ImportErrors.

Variables (initial_state_symbol final_state_symbol : string).
Variables (no_transition_symbol empty_string_symbol : string).
Variables (states_col_index state_symbols_col_index : Z).

Local Abbreviation state_row :=
  (parse_state_row initial_state_symbol final_state_symbol states_col_index
     state_symbols_col_index).
Local Abbreviation cell_body :=
  (parse_cell no_transition_symbol empty_string_symbol).

Lemma mark_state_error (state : State) (state_type : string) (w w' : World)
    (e : Error) :
  mark_state initial_state_symbol final_state_symbol state state_type w
  = (Raise e, w') ->
  import_error e.
Proof.
  unfold mark_state, set_initial_state, set_is_final, import_error.
  unfold mbind, M_bind, gets, modify, raise, mret, M_ret. cbv beta iota.
  destruct (contains initial_state_symbol state_type).
  - destruct (initial_state (self w)); [intros [= <- _]; eauto 10 |].
    destruct (has_state (self w) (name state)); [| intros [= <- _]; eauto 10].
    destruct (contains final_state_symbol state_type); discriminate.
  - destruct (contains final_state_symbol state_type); discriminate.
Qed.

(** A data row adds one state or fails with an import error. *)
Lemma parse_state_row_outcome (row : Row) (w w' : World) (r : Result unit) :
  state_row row w = (r, w') ->
  match r with
  | Return _ => length (states (self w')) = S (length (states (self w)))
  | Raise e => import_error e
  end.
Proof.
  unfold parse_state_row, mbind, M_bind.
  destruct (pop_or_raise row states_col_index w) as [[[cell r1] | e] wa] eqn:Hp1.
  2:{ intros [= <- _]. now apply pop_or_raise_error in Hp1. }
  apply pop_or_raise_inv in Hp1 as [-> _].
  destruct (add_state cell w) as [[state | e] wb] eqn:Ha.
  2:{ intros [= <- _]. now apply add_state_error in Ha. }
  apply add_state_inv in Ha as (_ & _ & _ & _ & Hself & _).
  match goal with
  | |- context [pop_or_raise ?l ?i wb] =>
      destruct (pop_or_raise l i wb) as [[[ty r2] | e] wc] eqn:Hp2
  end.
  2:{ intros [= <- _]. now apply pop_or_raise_error in Hp2. }
  apply pop_or_raise_inv in Hp2 as [-> _].
  intros Hmark. destruct r as [[] | e].
  - apply mark_state_states in Hmark. rewrite Hmark, Hself. cbn [states].
    rewrite length_app. cbn. lia.
  - now apply mark_state_error in Hmark.
Qed.

Lemma first_pass_outcome (rows : list Row) (w w' : World) (r : Result unit) :
  for_each rows state_row w = (r, w') ->
  match r with
  | Return _ =>
      length (states (self w')) = length (states (self w)) + length rows
  | Raise e => import_error e
  end.
Proof.
  revert w. induction rows as [| row rows IH]; intros w; cbn [for_each].
  - intros [= <- <-]. cbn. lia.
  - unfold mbind, M_bind.
    destruct (state_row row w) as [[[] | e] w1] eqn:Hrow;
      apply parse_state_row_outcome in Hrow.
    + intros H. apply IH in H. destruct r; [| exact H]. cbn [length]. lia.
    + now intros [= <- _].
Qed.

Lemma parse_cell_error (state : State) (cell : string * string)
    (w w' : World) (e : Error) :
  cell_body state cell w = (Raise e, w') -> import_error e.
Proof.
  unfold parse_cell. destruct cell as [label v].
  destruct (String.eqb v no_transition_symbol); [discriminate |].
  unfold mbind, M_bind, gets, raise, mret, M_ret. cbv beta iota.
  destruct (get_state (self w) v) as [t |].
  - destruct (add_transition state (Some t) _ w) as [[tr | e0] w1] eqn:Ha;
      [discriminate |].
    intros [= <- _]. now apply add_transition_error in Ha.
  - intros [= <- _]. unfold import_error. eauto 10.
Qed.

Lemma cells_error (state : State) (l : list (string * string))
    (w w' : World) (e : Error) :
  for_each l (cell_body state) w = (Raise e, w') -> import_error e.
Proof.
  revert w. induction l as [| c l IH]; intros w; cbn [for_each];
    [discriminate |].
  unfold mbind, M_bind.
  destruct (cell_body state c w) as [[[] | e0] w1] eqn:Hc.
  - apply IH.
  - intros [= <- _]. now apply parse_cell_error in Hc.
Qed.

(** With a row left for every state, the [next(csv_file)] of the second
    pass never raises StopIteration. *)
Lemma transition_rows_error (columns : Row) (indices : list Z)
    (states' : list State) (rows : list Row) (w w' : World) (e : Error) :
  length states' <= length rows ->
  parse_transition_rows no_transition_symbol empty_string_symbol columns
    indices states' rows w
  = (Raise e, w') ->
  import_error e.
Proof.
  revert rows w. induction states' as [| state states' IH];
    intros rows w Hlen; cbn [parse_transition_rows]; [discriminate |].
  destruct rows as [| row rows]; [cbn in Hlen; lia |].
  unfold mbind, M_bind.
  destruct (pop_each row indices w) as [[r | e0] w1] eqn:Hp.
  2:{ intros [= <- _]. now apply pop_each_error in Hp. }
  destruct (for_each _ (cell_body state) w1) as [[[] | e0] w2] eqn:Hcells.
  2:{ intros [= <- _]. now apply cells_error in Hcells. }
  apply IH. cbn in Hlen. lia.
Qed.

End ImportErrors.

(** X21: on a table with a header row, whatever the data rows, the column
    indices and the symbols are, a failing [parse_csv] never fails with
    StopIteration: the [next(csv_file)] of the second pass cannot run out of
    rows, because the first pass has created exactly one state per data
    row. *)
Theorem parse_csv_no_stop_iteration
    (initial_state_symbol final_state_symbol : string)
    (no_transition_symbol empty_string_symbol : string)
    (states_col_index state_symbols_col_index : Z)
    (header : Row) (rows : list Row) (w w' : World) (e : Error) :
  parse_csv initial_state_symbol final_state_symbol no_transition_symbol
    empty_string_symbol states_col_index state_symbols_col_index
    (header :: rows) w
  = (Raise e, w') ->
  e <> StopIteration.
Proof.
  intros H. assert (He : import_error e).
  2:{ intros ->. unfold import_error in He.
      destruct He as [[? He] | [He | [He | [[? He] | [[? He] | [[? He]
        | (? & ? & He)]]]]]]; discriminate. }
  revert H. unfold parse_csv.
  destruct (states_col_index =? state_symbols_col_index)%Z.
  { intros [= <- _]. unfold import_error. eauto 10. }
  unfold mbind, M_bind, try_except, reset, modify, raise. cbv beta iota.
  match goal with
  | |- context [populate ?a ?b ?c ?d ?s ?m ?f ?v] =>
      destruct (populate a b c d s m f v) as [[[] | e0] w2] eqn:Hpop
  end; [discriminate |].
  intros [= <- _]. revert Hpop.
  unfold populate. cbn [tail]. unfold mbind, M_bind, gets.
  match goal with
  | |- context [for_each rows ?body ?v] =>
      destruct (for_each rows body v) as [[[] | e1] w1] eqn:Hfirst
  end; apply first_pass_outcome in Hfirst.
  2:{ now intros [= <- _]. }
  cbn [with_self self states empty_automaton length] in Hfirst.
  match goal with
  | |- context [pop_each header ?idx w1] =>
      destruct (pop_each header idx w1) as [[columns' | e1] w3] eqn:Hp
  end.
  2:{ intros [= <- _]. now apply pop_each_error in Hp. }
  apply pop_each_world in Hp as ->.
  apply transition_rows_error. lia.
Qed.

Lemma parse_csv_no_stop_iteration_witness :
  exists e w',
    parse_csv_default unknown_target_table empty_world = (Raise e, w')
    /\ e <> StopIteration.
Proof.
  exists (StateNotFoundError "zz"),
    (snd (parse_csv_default unknown_target_table empty_world)).
  split; [lazy; reflexivity |].
  apply (parse_csv_no_stop_iteration ">" "*" "-" "-" 1 0 [""; ""; "a"; "a"]
           [[">"; "q1"; "zz"; "zz"]] empty_world
           (snd (parse_csv_default unknown_target_table empty_world))).
  lazy. reflexivity.
Defined.

(** ** [parse_csv]: column indices counted from the end *)

Lemma pop_from_end {A : Type} (l : list A) (i : Z) :
  (- Z.of_nat (length l) <= i < 0)%Z ->
  exists x,
    l !! Z.to_nat (Z.of_nat (length l) + i) = Some x
    /\ pop l i = Some (x, delete (Z.to_nat (Z.of_nat (length l) + i)) l).
Proof.
  intros Hi. unfold pop. cbv zeta.
  assert (Hneg : (i <? 0)%Z = true) by (apply Z.ltb_lt; lia).
  assert (Hlow : (i + Z.of_nat (length l) <? 0)%Z = false)
    by (apply Z.ltb_ge; lia).
  assert (Hge : (Z.of_nat (length l) <=? i + Z.of_nat (length l))%Z = false)
    by (apply Z.leb_gt; lia).
  rewrite Hneg, Hlow, Hge. cbn [orb].
  replace (i + Z.of_nat (length l))%Z with (Z.of_nat (length l) + i)%Z by lia.
  destruct (l !! Z.to_nat (Z.of_nat (length l) + i)) as [x |] eqn:Hx.
  - now exists x.
  - apply lookup_ge_None in Hx. lia.
Qed.

Lemma parse_state_row_pops
    (initial_state_symbol final_state_symbol : string) (s m : Z)
    (row r1 r2 : Row) (cell state_type : string) :
  pop row s = Some (cell, r1) ->
  pop r1 (m - Z.b2z (s <? m))%Z = Some (state_type, r2) ->
  forall w,
    parse_state_row initial_state_symbol final_state_symbol s m row w
    = (add_state cell ≫=
         fun state =>
           mark_state initial_state_symbol final_state_symbol state state_type)
        w.
Proof.
  intros Hpop1 Hpop2 w.
  unfold parse_state_row, pop_or_raise. rewrite Hpop1.
  unfold mbind at 1. unfold M_bind at 1. cbn [mret M_ret].
  unfold mbind at 1 3. unfold M_bind at 1 3.
  destruct (add_state cell w) as [[state | e] w1]; [| reflexivity].
  rewrite Hpop2. reflexivity.
Qed.

(** X22: with two column indices counted from the end (negative, as
    [list.pop] accepts them) the first pass still takes the state name from
    the designated cell, but it takes the state symbols from the cell to
    the left of the designated one, or from the second cell to the left
    when the first is the name cell: the row is read as if that cell were
    its state symbols cell. *)
Theorem parse_state_row_negative_indices
    (initial_state_symbol final_state_symbol : string) (s m : Z)
    (row : Row) (cell state_type : string) (w : World) :
  let n := Z.of_nat (length row) in
  let read := (n + m - (if (s =? m - 1)%Z then 2 else 1))%Z in
  (- n <= s < 0)%Z -> (- n <= m < 0)%Z -> s <> m -> (0 <= read)%Z ->
  row !! Z.to_nat (n + s) = Some cell ->
  row !! Z.to_nat read = Some state_type ->
  parse_state_row initial_state_symbol final_state_symbol s m row w
  = (add_state cell ≫=
       fun state =>
         mark_state initial_state_symbol final_state_symbol state state_type)
      w.
Proof.
  intros n read Hs Hm Hne Hread Hcell Hty. subst n read.
  destruct (pop_from_end row s Hs) as (cell' & Hc & Hpop1).
  rewrite Hcell in Hc. injection Hc as <-.
  assert (Hlen : length (delete (Z.to_nat (Z.of_nat (length row) + s)) row)
                 = length row - 1).
  { apply length_delete. eauto. }
  assert (Hpop2 : exists r2,
            pop (delete (Z.to_nat (Z.of_nat (length row) + s)) row)
              (m - Z.b2z (s <? m))%Z = Some (state_type, r2)).
  { destruct (s <? m)%Z eqn:Hlt; cbn [Z.b2z].
    - apply Z.ltb_lt in Hlt.
      destruct (pop_from_end
                  (delete (Z.to_nat (Z.of_nat (length row) + s)) row) (m - 1))
        as (x & Hx & Hp).
      { rewrite Hlen. destruct (s =? m - 1)%Z eqn:He; lia. }
      rewrite Hp. rewrite Hlen in Hx.
      assert (x = state_type) as ->; [| eauto].
      destruct (s =? m - 1)%Z eqn:He.
      + apply Z.eqb_eq in He.
        rewrite list_lookup_delete_lt in Hx by lia.
        replace (Z.to_nat (Z.of_nat (length row - 1) + (m - 1)))
          with (Z.to_nat (Z.of_nat (length row) + m - 2)) in Hx by lia.
        congruence.
      + apply Z.eqb_neq in He.
        rewrite list_lookup_delete_ge in Hx by lia.
        replace (S (Z.to_nat (Z.of_nat (length row - 1) + (m - 1))))
          with (Z.to_nat (Z.of_nat (length row) + m - 1)) in Hx by lia.
        congruence.
    - apply Z.ltb_ge in Hlt.
      assert (He : (s =? m - 1)%Z = false) by (apply Z.eqb_neq; lia).
      rewrite He in Hread, Hty.
      replace (m - 0)%Z with m by lia.
      destruct (pop_from_end
                  (delete (Z.to_nat (Z.of_nat (length row) + s)) row) m)
        as (x & Hx & Hp).
      { rewrite Hlen. lia. }
      rewrite Hp. rewrite Hlen in Hx.
      assert (x = state_type) as ->; [| eauto].
      rewrite list_lookup_delete_lt in Hx by lia.
      replace (Z.to_nat (Z.of_nat (length row - 1) + m))
        with (Z.to_nat (Z.of_nat (length row) + m - 1)) in Hx by lia.
      congruence. }
  destruct Hpop2 as [r2 Hpop2].
  exact (parse_state_row_pops _ _ _ _ _ _ _ _ _ Hpop1 Hpop2 w).
Qed.

Lemma parse_state_row_negative_indices_witness :
  parse_state_row ">" "*" (-2) (-1) ["*"; "q1"; ">"] empty_world
  = (add_state "q1" ≫= fun state => mark_state ">" "*" state "*") empty_world.
Proof.
  apply (parse_state_row_negative_indices ">" "*" (-2) (-1) ["*"; "q1"; ">"]
           "q1" "*" empty_world);
    cbn; first [lia | discriminate | reflexivity].
Defined.

(** ** [parse_csv]: removing the two columns, in both passes *)

Lemma transition_rows_spec
    (no_transition_symbol empty_string_symbol : string) (s m : Z)
    (columns : Row) (states' : list State) (rows : list Row) (w : World) :
  (0 <= s)%Z -> (0 <= m)%Z -> s <> m ->
  Forall (fun row => (s < Z.of_nat (length row))%Z
                     /\ (m < Z.of_nat (length row))%Z) rows ->
  parse_transition_rows no_transition_symbol empty_string_symbol columns
    (rev (sorted [s; m])) states' rows w
  = spec_second_pass no_transition_symbol empty_string_symbol s m columns
      states' rows w.
Proof.
  intros Hs Hm Hne. revert rows w.
  induction states' as [| state states' IH]; intros rows w Hrange;
    [reflexivity |].
  destruct rows as [| row rows]; [reflexivity |].
  apply Forall_cons in Hrange as [[Hrs Hrm] Hrange].
  cbn [parse_transition_rows spec_second_pass]. unfold mbind, M_bind.
  rewrite pop_each_in_range by (try lia; assumption).
  destruct (for_each _ _ w) as [[[] | e] w1]; [| reflexivity].
  now apply IH.
Qed.

(** C4, for zero-based indices: for a data row and two distinct column
    indices inside the row, the first pass reads the row's original cell at
    the name index as the state name and, with the marker index lowered by
    one exactly when it is greater than the name index, the row's original
    cell at the marker index as the marker text; and, the indices lying
    inside the header too, the second pass of the import is the pass that
    pairs the header minus the two columns with each data row minus exactly
    those two columns, in order. *)
Theorem two_column_removal
    (initial_state_symbol final_state_symbol : string)
    (no_transition_symbol empty_string_symbol : string)
    (states_col_index state_symbols_col_index : Z)
    (row header : Row) (rows : list Row) :
  (0 <= states_col_index < Z.of_nat (length row))%Z ->
  (0 <= state_symbols_col_index < Z.of_nat (length row))%Z ->
  states_col_index <> state_symbols_col_index ->
  (states_col_index < Z.of_nat (length header))%Z ->
  (state_symbols_col_index < Z.of_nat (length header))%Z ->
  let removed :=
    [Z.to_nat states_col_index; Z.to_nat state_symbols_col_index] in
  exists cell state_type row1,
    row !! Z.to_nat states_col_index = Some cell
    /\ row !! Z.to_nat state_symbols_col_index = Some state_type
    /\ pop row states_col_index = Some (cell, row1)
    /\ pop row1
         (state_symbols_col_index
          - Z.b2z (states_col_index <? state_symbols_col_index))%Z
       = Some (state_type, without_columns removed row)
    /\ (forall w,
          parse_state_row initial_state_symbol final_state_symbol
            states_col_index state_symbols_col_index row w
          = (add_state cell ≫=
               fun state =>
                 mark_state initial_state_symbol final_state_symbol state
                   state_type) w)
    /\ (forall w,
          populate initial_state_symbol final_state_symbol
            no_transition_symbol empty_string_symbol states_col_index
            state_symbols_col_index (header :: rows) w
          = (for_each rows
               (parse_state_row initial_state_symbol final_state_symbol
                  states_col_index state_symbols_col_index) ;;
             states' ← gets (fun w => states (self w));
             spec_second_pass no_transition_symbol empty_string_symbol
               states_col_index state_symbols_col_index
               (without_columns removed header) states' rows) w).
Proof.
  intros Hs Hm Hne Hhs Hhm removed.
  destruct (first_pass_pops _ _ row Hs Hm Hne)
    as (cell & state_type & Hcell & Htype & Hpop1 & Hpop2).
  exists cell, state_type, (delete (Z.to_nat states_col_index) row).
  split; [exact Hcell |]. split; [exact Htype |].
  split; [exact Hpop1 |]. split; [exact Hpop2 |]. split.
  - now apply parse_state_row_in_range.
  - intros w. unfold populate. cbn [tail]. unfold mbind, M_bind, gets.
    match goal with
    | |- context [for_each rows ?body w] =>
        destruct (for_each rows body w) as [[[] | e] w1] eqn:Hfirst
    end; [| reflexivity].
    rewrite pop_each_in_range by (try lia; assumption).
    apply transition_rows_spec; try lia.
    destruct Hs as [Hs _]. destruct Hm as [Hm _].
    pose proof (first_pass_effect _ _ _ _ Hs Hm Hne _ _ _ Hfirst)
      as (_ & _ & _ & _ & Hrange & _).
    eapply Forall_impl; [exact Hrange |]. now intros r (? & ? & _).
Qed.

Lemma two_column_removal_witness :
  exists cell state_type row1,
    [">"; "q1"; "q2"; "-"] !! Z.to_nat 1 = Some cell
    /\ [">"; "q1"; "q2"; "-"] !! Z.to_nat 0 = Some state_type
    /\ pop [">"; "q1"; "q2"; "-"] 1 = Some (cell, row1)
    /\ pop row1 (0 - Z.b2z (1 <? 0))%Z
       = Some (state_type, without_columns [Z.to_nat 1; Z.to_nat 0]
                             [">"; "q1"; "q2"; "-"])
    /\ (forall w,
          parse_state_row ">" "*" 1 0 [">"; "q1"; "q2"; "-"] w
          = (add_state cell ≫=
               fun state => mark_state ">" "*" state state_type) w)
    /\ (forall w,
          populate ">" "*" "-" "-" 1 0
            ([""; ""; "a"; "b"] :: [[">"; "q1"; "q2"; "-"]]) w
          = (for_each [[">"; "q1"; "q2"; "-"]] (parse_state_row ">" "*" 1 0) ;;
             states' ← gets (fun w => states (self w));
             spec_second_pass "-" "-" 1 0
               (without_columns [Z.to_nat 1; Z.to_nat 0] [""; ""; "a"; "b"])
               states' [[">"; "q1"; "q2"; "-"]]) w).
Proof.
  apply (two_column_removal ">" "*" "-" "-" 1 0 [">"; "q1"; "q2"; "-"]
           [""; ""; "a"; "b"] [[">"; "q1"; "q2"; "-"]]).
  - cbn. lia.
  - cbn. lia.
  - lia.
  - cbn. lia.
  - cbn. lia.
Defined.

(** C4 as stated fails for indices counted from the end: in the row
    [*, q1, >] with the name index -2 and the marker index -1, the row's
    cell at the marker index is [>], but the first pass takes [*] as the
    marker text, so that the state is made final and not initial. *)
Lemma two_column_removal_counterexample :
  pop ["*"; "q1"; ">"] (-1) = Some (">", ["*"; "q1"])
  /\ pop ["*"; "q1"; ">"] (-2) = Some ("q1", ["*"; ">"])
  /\ (exists w',
        parse_state_row ">" "*" (-2) (-1) ["*"; "q1"; ">"] empty_world
        = (Return tt, w')
        /\ initial_state (self w') = None
        /\ is_final w' (mkState 0 "q1") = true)
  /\ parse_state_row ">" "*" (-2) (-1) ["*"; "q1"; ">"] empty_world
     <> (add_state "q1" ≫= fun state => mark_state ">" "*" state ">")
          empty_world.
Proof.
  split; [reflexivity |]. split; [reflexivity |]. split.
  - eexists. split; [lazy; reflexivity |]. split; reflexivity.
  - intros H. lazy in H. discriminate.
Qed.
